(** * Retrieval engine of the chatbot: a shallow embedding of [src/app/lib/rag.ts]

    The file embeds the operations of the retrieval module -- [addDocument],
    [searchDocuments], [getEmbedding] and the two pure helpers
    [extractKeyTerms] and [generateQuestionVariations] -- and proves the
    properties the specification states about them.

    Conventions of the embedding.
    - A JavaScript string is a [string] read as a sequence of code units
      below 256.  On these, [\w] is the class [A-Za-z0-9_], [\s] is TAB, LF,
      VT, FF, CR, SPACE and NBSP (160), and [toLowerCase] moves [A-Z] and the
      capital letters U+00C0 to U+00DE.
    - A JavaScript number that carries a similarity score is a rational [Q]:
      the code only compares such numbers and takes the sign of a
      difference.  [limit] is an integer [Z]; [Array.prototype.slice] is
      written out for a negative end.
    - A JavaScript object used as a mapping (the metadata) is a [gmap]; an
      object with optional properties (a row, an error) is a record with
      [option] fields.  The metadata argument of [addDocument] is untyped:
      [JsCall.addDocument] takes it as it may come, left out, [null] or a
      value with its properties.
    - The embedding provider, the text splitter and the vector store are
      external: they are the fields of a [Services] record, a transition
      system over an abstract world.  A store call resolves to its answer
      (with or without an [error]); an embedding call that fails throws.
      Every call the code issues is appended to a trace, with what it was
      given and what came back.  The [console] logging is left out. *)

From Stdlib Require Import String Ascii List ZArith QArith Lia Lqa Bool Sorted Permutation.
From stdpp Require Import base gmap strings.
Import ListNotations.

Local Open Scope string_scope.
Local Open Scope list_scope.

(** ** JavaScript strings *)

Module JsString.

Definition code (c : ascii) : N := N_of_ascii c.

Definition in_range (lo hi : N) (c : ascii) : bool :=
  (lo <=? code c)%N && (code c <=? hi)%N.

Definition is_upper (c : ascii) : bool := in_range 65 90 c.
Definition is_lower (c : ascii) : bool := in_range 97 122 c.
Definition is_digit (c : ascii) : bool := in_range 48 57 c.

(** [\w] *)
Definition is_word (c : ascii) : bool :=
  is_upper c || is_lower c || is_digit c || (code c =? 95)%N.

(** [\s] on 8-bit code units *)
Definition is_space (c : ascii) : bool :=
  in_range 9 13 c || (code c =? 32)%N || (code c =? 160)%N.

(** The capital letters of the upper half of the 8-bit range: U+00C0 to
    U+00DE without the multiplication sign U+00D7. *)
Definition is_upper_latin1 (c : ascii) : bool :=
  in_range 192 222 c && negb (code c =? 215)%N.

Definition lower_char (c : ascii) : ascii :=
  if is_upper c || is_upper_latin1 c then ascii_of_N (code c + 32) else c.

(** [s.toLowerCase()] *)
Fixpoint toLowerCase (s : string) : string :=
  match s with
  | EmptyString => EmptyString
  | String c r => String (lower_char c) (toLowerCase r)
  end.

(** [s.replace(/[^\w\s]/g, '')] *)
Fixpoint strip_non_word (s : string) : string :=
  match s with
  | EmptyString => EmptyString
  | String c r =>
      if is_word c || is_space c then String c (strip_non_word r)
      else strip_non_word r
  end.

Definition starts_with_space (s : string) : bool :=
  match s with
  | EmptyString => false
  | String c _ => is_space c
  end.

(** [s.split(/\s+/)]: the pieces between maximal runs of white space.  A
    run at the very start or the very end leaves an empty piece there, and
    the empty string splits into one empty piece. *)
Fixpoint split_ws (s : string) : list string :=
  match s with
  | EmptyString => [EmptyString]
  | String c r =>
      if is_space c then
        if starts_with_space r then split_ws r else EmptyString :: split_ws r
      else
        match split_ws r with
        | t :: ts => String c t :: ts
        | [] => [String c EmptyString]
        end
  end.

(** [s.startsWith(p)] at position 0 *)
Fixpoint prefix_of (p s : string) : bool :=
  match p, s with
  | EmptyString, _ => true
  | String a p', String b s' => Ascii.eqb a b && prefix_of p' s'
  | String _ _, EmptyString => false
  end.

(** [s.includes(p)] *)
Fixpoint includes (s p : string) : bool :=
  prefix_of p s ||
  match s with
  | EmptyString => false
  | String _ r => includes r p
  end.

(** [parts.join(sep)] *)
Fixpoint join (sep : string) (parts : list string) : string :=
  match parts with
  | [] => EmptyString
  | [p] => p
  | p :: rest => p ++ sep ++ join sep rest
  end.

End JsString.

Import JsString.

(** ** Key terms and question variations (pure helpers) *)

Definition stopWords : gset string :=
  list_to_set
    [ "the"; "a"; "an"; "is"; "are"; "was"; "were"; "be"; "been"; "being";
      "have"; "has"; "had"; "do"; "does"; "did"; "will"; "would"; "could"; "should";
      "may"; "might"; "must"; "shall"; "can"; "need"; "dare"; "ought"; "used";
      "what"; "which"; "who"; "whom"; "this"; "that"; "these"; "those"; "am";
      "your"; "you"; "how"; "much"; "many"; "po"; "ba"; "na"; "ng"; "sa"; "ang";
      "yung"; "mo"; "ko"; "nyo"; "nila"; "ka"; "ako"; "siya"; "kami"; "tayo"; "sila";
      "magkano"; "ano"; "paano"; "saan"; "kailan"; "bakit"; "ilan" ].

(** [new Set(words)] spread back into an array: a JavaScript [Set] iterates in
    insertion order, and adding a member twice leaves it where it was. *)
Definition set_add (acc : list string) (w : string) : list string :=
  if existsb (String.eqb w) acc then acc else acc ++ [w].

Definition set_of_array (words : list string) : list string :=
  fold_left set_add words [].

Definition keep_word (word : string) : bool :=
  (2 <? String.length word)%nat && negb (bool_decide (word ∈ stopWords)).

Definition extractKeyTerms (query : string) : list string :=
  let words :=
    List.filter keep_word
      (split_ws (strip_non_word (toLowerCase query))) in
  firstn 5 (set_of_array words).

Definition generateQuestionVariations (query : string) : list string :=
  let variations : list string := [] in
  let lowerQuery := toLowerCase query in
  let variations :=
    if includes lowerQuery "price" || includes lowerQuery "cost"
       || includes lowerQuery "magkano" || includes lowerQuery "presyo"
    then variations ++ ["What is the price?"; "How much does it cost?"; "Magkano?"]
    else variations in
  let variations :=
    if includes lowerQuery "product" || includes lowerQuery "produkto"
       || includes lowerQuery "item"
    then variations ++ ["What products do you have?"; "Tell me about your products"]
    else variations in
  let variations :=
    if includes lowerQuery "deliver" || includes lowerQuery "shipping"
       || includes lowerQuery "padala"
    then variations ++ ["Do you deliver?"; "How much is shipping?"; "Nagdedeliver ba kayo?"]
    else variations in
  let variations :=
    if includes lowerQuery "pay" || includes lowerQuery "bayad"
       || includes lowerQuery "gcash" || includes lowerQuery "bank"
    then variations ++ ["What payment methods do you accept?"; "How can I pay?"]
    else variations in
  variations.

(** ** Data model *)

(** A thrown or reported error object; [message] may be missing. *)
Record JsError := { message : option string }.

Inductive JsValue :=
| JNull
| JBool (b : bool)
| JNum (n : Z)
| JStr (s : string).

(** Truthiness of a property read; [None] is [undefined]. *)
Definition truthy (v : option JsValue) : bool :=
  match v with
  | None | Some JNull => false
  | Some (JBool b) => b
  | Some (JNum n) => negb (n =? 0)%Z
  | Some (JStr s) => negb (String.eqb s "")
  end.

Abbreviation Metadata := (gmap string JsValue).

Definition Embedding := list Q.

Inductive InputType := Query | Passage.

Inductive MatchType := Semantic | Keyword | Variation.

(** A row as the store returns it and as the search decorates it.  Absent
    properties are [None]. *)
Record Doc := {
  id : Z;
  content : string;
  metadata : Metadata;
  similarity : option Q;
  matchType : option MatchType
}.

(** The object handed to [supabase.from('documents').insert]. *)
Record InsertData := {
  ins_content : string;
  ins_metadata : Metadata;
  ins_embedding : Embedding;
  ins_category_id : option JsValue
}.

(** What a store read resolves to: [{ data, error }]. *)
Record Response := { data : option (list Doc); error : option JsError }.

(** A document of the text splitter. *)
Record Chunk := { pageContent : string; chunk_metadata : Metadata }.

(** One external call, with what it was given and what came back. *)
Inductive Event :=
| EvEmbed (text : string) (inputType : InputType) (outcome : Embedding + JsError)
| EvInsert (row : InsertData) (err : option JsError)
| EvMatchDocuments (query_embedding : Embedding) (match_threshold : Q)
    (match_count : Z) (resp : Response)
| EvSelect (or_filter : string) (count : Z) (resp : Response).

(** The collaborators.  [World] is whatever state the embedding provider and
    the store have between them; each call may change it. *)
Record Services (World : Type) := {
  embed_call : string -> InputType -> World -> World * (Embedding + JsError);
  createDocuments : string -> list Chunk;
  insert_call : InsertData -> World -> World * option JsError;
  match_documents : Embedding -> Q -> Z -> World -> World * Response;
  select_or_ilike : string -> Z -> World -> World * Response
}.
Arguments embed_call {World}.
Arguments createDocuments {World}.
Arguments insert_call {World}.
Arguments match_documents {World}.
Arguments select_or_ilike {World}.

Record State (World : Type) := { world : World; trace : list Event }.
Arguments world {World}.
Arguments trace {World}.
Arguments Build_State {World}.

(** ** The effect monad: state passing with exceptions *)

Inductive Outcome (A : Type) :=
| Returned (a : A)
| Thrown (e : JsError).
Arguments Returned {A}.
Arguments Thrown {A}.

Definition M (World A : Type) : Type := State World -> State World * Outcome A.

Definition ret {W A} (a : A) : M W A := fun st => (st, Returned a).

Definition throw {W A} (e : JsError) : M W A := fun st => (st, Thrown e).

Definition bind {W A B} (m : M W A) (k : A -> M W B) : M W B :=
  fun st =>
    match m st with
    | (st', Returned a) => k a st'
    | (st', Thrown e) => (st', Thrown e)
    end.

(** [try { body } catch (error) { handler }]: what the body did to the
    world before it threw stays done. *)
Definition try_catch {W A} (body : M W A) (handler : JsError -> M W A) : M W A :=
  fun st =>
    match body st with
    | (st', Returned a) => (st', Returned a)
    | (st', Thrown e) => handler e st'
    end.

Declare Scope js_scope.
Delimit Scope js_scope with js.
Notation "x <- m ;; k" := (bind m (fun x => k))
  (at level 100, m at next level, right associativity) : js_scope.
Notation "m ;; k" := (bind m (fun _ => k))
  (at level 100, right associativity) : js_scope.

(** [for (const x of xs) { body }] *)
Fixpoint for_of {W A} (xs : list A) (body : A -> M W unit) : M W unit :=
  match xs with
  | [] => ret tt
  | x :: rest => bind (body x) (fun _ => for_of rest body)
  end.

Local Open Scope js_scope.

(** ** Merging, ranking and rendering of hits (the pure tail of the search) *)

(** [doc.similarity || 0] *)
Definition sim (doc : Doc) : Q :=
  match similarity doc with
  | Some q => q
  | None => 0
  end.

(** [a > b] on similarities *)
Definition Qgtb (a b : Q) : bool := negb (Qle_bool a b).

Definition with_matchType (t : MatchType) (doc : Doc) : Doc :=
  {| id := id doc; content := content doc; metadata := metadata doc;
     similarity := similarity doc; matchType := Some t |}.

(** [{ ...doc, similarity: 0.5, matchType: 'keyword' }] *)
Definition as_keyword_hit (doc : Doc) : Doc :=
  {| id := id doc; content := content doc; metadata := metadata doc;
     similarity := Some (1 # 2); matchType := Some Keyword |}.

(** A JavaScript [Map<string, Doc>]: entries stay in the order in which
    their keys were first set; setting a present key replaces the value in
    place. *)
Definition JsMap := list (string * Doc).

Fixpoint map_get (m : JsMap) (key : string) : option Doc :=
  match m with
  | [] => None
  | (k, v) :: rest => if String.eqb key k then Some v else map_get rest key
  end.

Fixpoint map_set (m : JsMap) (key : string) (value : Doc) : JsMap :=
  match m with
  | [] => [(key, value)]
  | (k, v) :: rest =>
      if String.eqb key k then (k, value) :: rest
      else (k, v) :: map_set rest key value
  end.

Definition map_values (m : JsMap) : list Doc := map snd m.

(** One turn of the loop that fills [seenContent]. *)
Definition dedupe_step (seenContent : JsMap) (doc : Doc) : JsMap :=
  match map_get seenContent (content doc) with
  | None => map_set seenContent (content doc) doc
  | Some existing =>
      if Qgtb (sim doc) (sim existing)
      then map_set seenContent (content doc) doc
      else seenContent
  end.

Definition dedupe (allResults : list Doc) : JsMap :=
  fold_left dedupe_step allResults [].

(** [.sort((a, b) => (b.similarity || 0) - (a.similarity || 0))]: the sort
    is stable, so it is the insertion of each element in front of the first
    one that does not rank strictly above it. *)
Fixpoint insert_desc (doc : Doc) (sorted : list Doc) : list Doc :=
  match sorted with
  | [] => [doc]
  | d :: rest =>
      if Qgtb (sim d) (sim doc) then d :: insert_desc doc rest
      else doc :: d :: rest
  end.

Fixpoint sort_desc (docs : list Doc) : list Doc :=
  match docs with
  | [] => []
  | d :: rest => insert_desc d (sort_desc rest)
  end.

(** [xs.slice(0, end)] for an integer [end]: a negative [end] counts from
    the back. *)
Definition slice0 {A} (end_ : Z) (xs : list A) : list A :=
  if (0 <=? end_)%Z then firstn (Z.to_nat end_) xs
  else firstn (length xs - Z.to_nat (- end_)) xs.

Definition blank_line : string :=
  String (ascii_of_nat 10) (String (ascii_of_nat 10) EmptyString).

Definition uniqueResults (limit : Z) (allResults : list Doc) : list Doc :=
  slice0 limit (sort_desc (map_values (dedupe allResults))).

(** What the search answers once the hits are gathered. *)
Definition render (limit : Z) (allResults : list Doc) : string :=
  let unique := uniqueResults limit allResults in
  if (length unique =? 0)%nat then ""
  else join blank_line (map content unique).

(** What each strategy makes of the store's answer. *)
Definition semantic_hits (resp : Response) : list Doc :=
  map (with_matchType Semantic)
    (match data resp with Some rows => rows | None => [] end).

Definition keyword_hits (resp : Response) : list Doc :=
  match error resp, data resp with
  | None, Some rows => map as_keyword_hit rows
  | _, _ => []
  end.

Definition variation_hits (resp : Response) : list Doc :=
  match error resp, data resp with
  | None, Some rows => map (with_matchType Variation) rows
  | _, _ => []
  end.

(** The argument of [.or(...)]: one [content.ilike.%term%] per key term. *)
Definition or_filter_of (keyTerms : list string) : string :=
  join "," (map (fun term => ("content.ilike.%" ++ term ++ "%")%string) keyTerms).

(** ** The module [rag.ts] over given collaborators *)

Section Rag.

Context {World : Type} (svc : Services World).

Local Abbreviation Js := (M World).

Definition log (ev : Event) (st : State World) (w : World) : State World :=
  {| world := w; trace := trace st ++ [ev] |}.

(** [getEmbedding(text, inputType)]: one request to the provider; a
    non-OK answer is thrown. *)
Definition getEmbedding (text : string) (inputType : InputType) : Js Embedding :=
  fun st =>
    let (w, outcome) := embed_call svc text inputType (world st) in
    (log (EvEmbed text inputType outcome) st w,
     match outcome with
     | inl embedding => Returned embedding
     | inr e => Thrown e
     end).

(** [supabase.from('documents').insert(row)], resolving to its [error]. *)
Definition insert (row : InsertData) : Js (option JsError) :=
  fun st =>
    let (w, err) := insert_call svc row (world st) in
    (log (EvInsert row err) st w, Returned err).

(** [supabase.rpc('match_documents', {...})] *)
Definition rpc_match_documents (query_embedding : Embedding)
    (match_threshold : Q) (match_count : Z) : Js Response :=
  fun st =>
    let (w, resp) :=
      match_documents svc query_embedding match_threshold match_count (world st) in
    (log (EvMatchDocuments query_embedding match_threshold match_count resp) st w,
     Returned resp).

(** [supabase.from('documents').select(...).or(filter).limit(count)] *)
Definition select_or (or_filter : string) (count : Z) : Js Response :=
  fun st =>
    let (w, resp) := select_or_ilike svc or_filter count (world st) in
    (log (EvSelect or_filter count resp) st w, Returned resp).

(** *** addDocument *)

(** [error && error.message?.includes('category_id')] *)
Definition mentions_category_id (err : option JsError) : bool :=
  match err with
  | Some {| message := Some msg |} => includes msg "category_id"
  | _ => false
  end.

Definition set_category_id (v : option JsValue) (row : InsertData) : InsertData :=
  {| ins_content := ins_content row;
     ins_metadata := ins_metadata row;
     ins_embedding := ins_embedding row;
     ins_category_id := v |}.

(** The body of the loop over the chunks. *)
Definition store_chunk (metadata : Metadata) (categoryId : option JsValue)
    (chunk : Chunk) : Js unit :=
  embedding <- getEmbedding (pageContent chunk) Passage ;;
  let insertData :=
    {| ins_content := pageContent chunk;
       ins_metadata := chunk_metadata chunk ∪ metadata;
       ins_embedding := embedding;
       ins_category_id := None |} in
  let insertData :=
    if truthy categoryId then set_category_id categoryId insertData
    else insertData in
  error <- insert insertData ;;
  error <-
    (if mentions_category_id error
     then insert (set_category_id None insertData)
     else ret error) ;;
  match error with
  | Some e => throw e
  | None => ret tt
  end.

Definition addDocument (content : string) (metadata : Metadata) : Js bool :=
  try_catch
    (let categoryId := metadata !! "categoryId" in
     let chunks := createDocuments svc content in
     for_of chunks (store_chunk metadata categoryId) ;;
     ret true)
    (fun _ => ret false).

(** *** searchDocuments *)

(** The loop over the question variations, with [qaResults] as it grows. *)
Fixpoint search_variations (variations : list string) (qaResults : list Doc)
    : Js (list Doc) :=
  match variations with
  | [] => ret qaResults
  | variation :: rest =>
      varEmbedding <- getEmbedding variation Query ;;
      resp <- rpc_match_documents varEmbedding (3 # 10) 3 ;;
      search_variations rest (qaResults ++ variation_hits resp)
  end.

(** The three strategies, up to the merged [allResults]. *)
Definition gather (query : string) (limit : Z) : Js (list Doc) :=
  queryEmbedding <- getEmbedding query Query ;;
  semantic <- rpc_match_documents queryEmbedding (3 # 10) limit ;;
  let keyTerms := extractKeyTerms query in
  keywordResults <-
    (if (0 <? length keyTerms)%nat
     then (resp <- select_or (or_filter_of keyTerms) limit ;;
           ret (keyword_hits resp))
     else ret []) ;;
  let questionVariations := generateQuestionVariations query in
  qaResults <- search_variations (firstn 2 questionVariations) [] ;;
  ret (semantic_hits semantic ++ keywordResults ++ qaResults).

Definition searchDocuments (query : string) (limit : Z) : Js string :=
  try_catch
    (allResults <- gather query limit ;;
     ret (render limit allResults))
    (fun _ => ret "").

End Rag.

(** ** Question variations by topic *)

(** The specification's reading of [generateQuestionVariations]: a fixed
    table of topics, each with its trigger substrings and its canned
    phrasings, consulted in order. *)
Record Topic := { triggers : list string; canned : list string }.

Definition pricing : Topic :=
  {| triggers := ["price"; "cost"; "magkano"; "presyo"];
     canned := ["What is the price?"; "How much does it cost?"; "Magkano?"] |}.

Definition product : Topic :=
  {| triggers := ["product"; "produkto"; "item"];
     canned := ["What products do you have?"; "Tell me about your products"] |}.

Definition delivery : Topic :=
  {| triggers := ["deliver"; "shipping"; "padala"];
     canned := ["Do you deliver?"; "How much is shipping?"; "Nagdedeliver ba kayo?"] |}.

Definition payment : Topic :=
  {| triggers := ["pay"; "bayad"; "gcash"; "bank"];
     canned := ["What payment methods do you accept?"; "How can I pay?"] |}.

Definition topics : list Topic := [pricing; product; delivery; payment].

Definition triggered (lowerQuery : string) (t : Topic) : bool :=
  existsb (includes lowerQuery) (triggers t).

Definition variations_by_topic (among : list Topic) (query : string) : list string :=
  flat_map canned (List.filter (triggered (toLowerCase query)) among).


(** ** Vocabulary for the statements about key terms *)

Fixpoint string_forall (P : ascii -> bool) (s : string) : bool :=
  match s with
  | EmptyString => true
  | String c r => P c && string_forall P r
  end.

(** What is left of a word character once it is lower-cased. *)
Definition is_term_char (c : ascii) : bool :=
  is_lower c || is_digit c || (code c =? 95)%N.

(** The ASCII punctuation marks: the printable characters 33-47, 58-64,
    91-96 and 123-126, the underscore (95) among them. *)
Definition is_punctuation (c : ascii) : bool :=
  in_range 33 47 c || in_range 58 64 c || in_range 91 96 c || in_range 123 126 c.

(** The specification's wording of the normalisation, at one query: no
    punctuation mark is left in a key term. *)
Definition punctuation_stripped (query : string) : Prop :=
  forall t, In t (extractKeyTerms query) ->
    string_forall (fun c => negb (is_punctuation c)) t = true.

(** The pieces of the normalised query that qualify as key terms. *)
Definition qualifying_tokens (query : string) : list string :=
  List.filter keep_word (split_ws (strip_non_word (toLowerCase query))).

(** The first occurrence of every member, in the order of the list. *)
Fixpoint first_occurrences (l : list string) : list string :=
  match l with
  | [] => []
  | x :: rest =>
      x :: List.filter (fun y => negb (String.eqb y x)) (first_occurrences rest)
  end.

(** Membership test of the insertion-ordered set. *)
Definition mem (w : string) (acc : list string) : bool := existsb (String.eqb w) acc.

(** ** Vocabulary for the statements about merging and ranking *)

(** [v] is, among the hits of [l] with its content, the first one of highest
    similarity: every earlier hit with the same content ranks strictly
    lower, every later one ranks no higher. *)
Definition first_best (l : list Doc) (v : Doc) : Prop :=
  exists before after,
    l = before ++ v :: after /\
    (forall x, In x before -> content x = content v -> (sim x < sim v)%Q) /\
    (forall x, In x after -> content x = content v -> (sim x <= sim v)%Q).

(** The invariant of the loop that fills [seenContent], after the hits [l]. *)
Definition seen_inv (l : list Doc) (m : JsMap) : Prop :=
  List.NoDup (map fst m) /\
  (forall k v, map_get m k = Some v -> content v = k /\ first_best l v) /\
  (forall x, In x l -> map_get m (content x) <> None).

(** Ranked from the most to the least similar. *)
Definition ranked (docs : list Doc) : Prop :=
  StronglySorted (fun a b => (sim b <= sim a)%Q) docs.

(** A row of the store, for examples. *)
Definition row (i : Z) (text : string) (s : option Q) : Doc :=
  {| id := i; content := text; metadata := ∅; similarity := s; matchType := None |}.

(** ** Vocabulary for the statements about external calls *)

(** What a trace says was asked of, and answered by, each collaborator. *)
Definition embed_requests (tr : list Event) : list (string * InputType) :=
  flat_map (fun ev => match ev with
                      | EvEmbed text ty _ => [(text, ty)]
                      | _ => []
                      end) tr.

Definition embed_failures (tr : list Event) : list JsError :=
  flat_map (fun ev => match ev with
                      | EvEmbed _ _ (inr e) => [e]
                      | _ => []
                      end) tr.

Definition match_requests (tr : list Event) : list (Q * Z) :=
  flat_map (fun ev => match ev with
                      | EvMatchDocuments _ threshold count _ => [(threshold, count)]
                      | _ => []
                      end) tr.

Definition match_responses (tr : list Event) : list Response :=
  flat_map (fun ev => match ev with
                      | EvMatchDocuments _ _ _ resp => [resp]
                      | _ => []
                      end) tr.

Definition select_responses (tr : list Event) : list Response :=
  flat_map (fun ev => match ev with
                      | EvSelect _ _ resp => [resp]
                      | _ => []
                      end) tr.

Definition insert_requests (tr : list Event) : list InsertData :=
  flat_map (fun ev => match ev with
                      | EvInsert r _ => [r]
                      | _ => []
                      end) tr.

(** The contents the store acknowledged. *)
Definition stored_contents (tr : list Event) : list string :=
  flat_map (fun ev => match ev with
                      | EvInsert r None => [ins_content r]
                      | _ => []
                      end) tr.

(** A store answer that carries no rows for the keyword and the variation
    strategy: an error, or no data. *)
Definition failed (resp : Response) : Prop :=
  error resp <> None \/ data resp = None.

(** The calls of the loop over the question variations, and the store
    answers it collected. *)
Inductive variation_calls : list string -> list Event -> Outcome (list Response) -> Prop :=
| vc_done : variation_calls [] [] (Returned [])
| vc_embed_fails variation rest e :
    variation_calls (variation :: rest) [EvEmbed variation Query (inr e)] (Thrown e)
| vc_searched variation rest embedding resp tr o :
    variation_calls rest tr o ->
    variation_calls (variation :: rest)
      (EvEmbed variation Query (inl embedding)
         :: EvMatchDocuments embedding (3 # 10) 3 resp :: tr)
      (match o with
       | Returned answers => Returned (resp :: answers)
       | Thrown e => Thrown e
       end).

(** The call of the keyword strategy, if any, and the hits it yields. *)
Inductive keyword_calls (query : string) (limit : Z) : list Event -> list Doc -> Prop :=
| kc_no_terms :
    extractKeyTerms query = [] -> keyword_calls query limit [] []
| kc_searched resp :
    extractKeyTerms query <> [] ->
    keyword_calls query limit
      [EvSelect (or_filter_of (extractKeyTerms query)) limit resp]
      (keyword_hits resp).

(** The calls of a whole search, and the merged hits. *)
Inductive search_calls (query : string) (limit : Z) : list Event -> Outcome (list Doc) -> Prop :=
| sc_embed_fails e :
    search_calls query limit [EvEmbed query Query (inr e)] (Thrown e)
| sc_searched embedding semantic kw_trace keywordResults var_trace o :
    keyword_calls query limit kw_trace keywordResults ->
    variation_calls (firstn 2 (generateQuestionVariations query)) var_trace o ->
    search_calls query limit
      (EvEmbed query Query (inl embedding)
         :: EvMatchDocuments embedding (3 # 10) limit semantic
         :: kw_trace ++ var_trace)
      (match o with
       | Returned answers =>
           Returned (semantic_hits semantic ++ keywordResults
                       ++ flat_map variation_hits answers)
       | Thrown e => Thrown e
       end).


(** The specification's wording of what a search answers, for the hits
    [hits] the strategies gathered. *)
Definition claimed_output (limit : Z) (hits : list Doc) (out : string) : Prop :=
  (dedupe hits = [] /\ out = "") \/
  exists top rest,
    Permutation (top ++ rest) (map_values (dedupe hits)) /\
    ranked (top ++ rest) /\
    (Z.of_nat (length top) <= limit)%Z /\
    out = join blank_line (map content top).

(** ** Sample collaborators *)

Module Sample.

(** A store that keeps the rows it accepts.  Without the category column
    it rejects every row that carries a [category_id]. *)
Definition insert_row (has_category_column : bool) (r : InsertData)
    (w : list InsertData) : list InsertData * option JsError :=
  match ins_category_id r with
  | Some _ =>
      if has_category_column then (w ++ [r], None)
      else (w, Some {| message :=
               Some "Could not find the 'category_id' column of 'documents'" |})
  | None => (w ++ [r], None)
  end.

(** A splitter that makes one chunk of every non-empty line of words. *)
Definition one_chunk_per_word (text : string) : list Chunk :=
  map (fun t => {| pageContent := t; chunk_metadata := ∅ |})
    (List.filter (fun t => negb (String.eqb t "")) (split_ws text)).

Definition services (embed_fails : string -> bool) (has_category_column : bool)
    (neighbours : Z -> Response) (matches : Z -> Response)
    : Services (list InsertData) :=
  {| embed_call := fun text _ w =>
       (w, if embed_fails text
           then inr {| message := Some "Embedding API error: 500" |}
           else inl []);
     createDocuments := one_chunk_per_word;
     insert_call := insert_row has_category_column;
     match_documents := fun _ _ count w => (w, neighbours count);
     select_or_ilike := fun _ count w => (w, matches count) |}.

Definition no_rows : Response := {| data := Some []; error := None |}.

Definition store_down : Response :=
  {| data := None; error := Some {| message := Some "connection refused" |} |}.

Definition start : State (list InsertData) := {| world := []; trace := [] |}.

End Sample.

(** What the store answers recorded in a trace contribute, strategy by
    strategy: the first nearest-neighbour answer is the semantic one, the
    later ones belong to the variations. *)
Definition contributions (delta : list Event) : list Doc :=
  flat_map semantic_hits (firstn 1 (match_responses delta))
    ++ flat_map keyword_hits (select_responses delta)
    ++ flat_map variation_hits (skipn 1 (match_responses delta)).

(** The specification's wording of the isolation of failures at one call:
    whatever fails, the search returns the rendering of everything the
    answers it received contribute. *)
Definition isolation_as_claimed {World : Type} (svc : Services World)
    (st : State World) (query : string) (limit : Z) : Prop :=
  exists delta,
    trace (fst (searchDocuments svc query limit st)) = trace st ++ delta /\
    snd (searchDocuments svc query limit st)
      = Returned (render limit (contributions delta)).

(** The specification's wording of the search contract at one call: the
    search returns, and what it returns is made as [claimed_output] says
    from the hits the strategies gathered (or is empty when gathering them
    was cut short). *)
Definition search_answers_as_claimed {World : Type} (svc : Services World)
    (st : State World) (query : string) (limit : Z) : Prop :=
  exists st' out,
    searchDocuments svc query limit st = (st', Returned out) /\
    match snd (gather svc query limit st) with
    | Returned hits => claimed_output limit hits out
    | Thrown _ => out = ""
    end.

Module SampleSearch.

Import Sample.

Definition price_list : Response :=
  {| data := Some [row 7 "Price list: 100 pesos" None]; error := None |}.

(** The provider cannot embed the first pricing variation. *)
Definition variation_unembeddable : Services (list InsertData) :=
  services (String.eqb "What is the price?") true (fun _ => no_rows)
    (fun _ => price_list).

(** The same collaborators, the variation finding nothing instead. *)
Definition variation_finds_nothing : Services (list InsertData) :=
  services (fun _ => false) true (fun _ => no_rows) (fun _ => price_list).

Definition two_neighbours : Response :=
  {| data := Some [row 1 "A" (Some (9 # 10)); row 2 "B" (Some (8 # 10))];
     error := None |}.

Definition negative_count : Response :=
  {| data := None;
     error := Some {| message := Some "LIMIT must not be negative" |} |}.

(** A store that rejects a negative count and otherwise finds the same two
    neighbours for every embedding; its content search finds nothing. *)
Definition two_matches : Services (list InsertData) :=
  services (fun _ => false) true
    (fun count => if (count <? 0)%Z then negative_count else two_neighbours)
    (fun count => if (count <? 0)%Z then negative_count else no_rows).




End SampleSearch.

(** ** Vocabulary for the statements about ingestion *)

(** The row [addDocument] first offers to the store for a chunk. *)
Definition first_attempt (metadata : Metadata) (categoryId : option JsValue)
    (chunk : Chunk) (embedding : Embedding) : InsertData :=
  {| ins_content := pageContent chunk;
     ins_metadata := chunk_metadata chunk ∪ metadata;
     ins_embedding := embedding;
     ins_category_id := if truthy categoryId then categoryId else None |}.

(** The calls made for one chunk. *)
Inductive chunk_calls (metadata : Metadata) (categoryId : option JsValue)
    (chunk : Chunk) : list Event -> Outcome unit -> Prop :=
| cc_embed_fails e :
    chunk_calls metadata categoryId chunk
      [EvEmbed (pageContent chunk) Passage (inr e)] (Thrown e)
| cc_inserted embedding :
    chunk_calls metadata categoryId chunk
      [EvEmbed (pageContent chunk) Passage (inl embedding);
       EvInsert (first_attempt metadata categoryId chunk embedding) None]
      (Returned tt)
| cc_rejected embedding e :
    mentions_category_id (Some e) = false ->
    chunk_calls metadata categoryId chunk
      [EvEmbed (pageContent chunk) Passage (inl embedding);
       EvInsert (first_attempt metadata categoryId chunk embedding) (Some e)]
      (Thrown e)
| cc_retried embedding e retry_error :
    mentions_category_id (Some e) = true ->
    chunk_calls metadata categoryId chunk
      [EvEmbed (pageContent chunk) Passage (inl embedding);
       EvInsert (first_attempt metadata categoryId chunk embedding) (Some e);
       EvInsert (set_category_id None
                   (first_attempt metadata categoryId chunk embedding)) retry_error]
      (match retry_error with
       | None => Returned tt
       | Some e' => Thrown e'
       end).

(** The calls made for a document: chunk after chunk, up to the first one
    that fails. *)
Inductive document_calls (metadata : Metadata) (categoryId : option JsValue)
    : list Chunk -> list Event -> Outcome unit -> Prop :=
| dc_done : document_calls metadata categoryId [] [] (Returned tt)
| dc_abort chunk rest tr e :
    chunk_calls metadata categoryId chunk tr (Thrown e) ->
    document_calls metadata categoryId (chunk :: rest) tr (Thrown e)
| dc_next chunk rest tr tr' o :
    chunk_calls metadata categoryId chunk tr (Returned tt) ->
    document_calls metadata categoryId rest tr' o ->
    document_calls metadata categoryId (chunk :: rest) (tr ++ tr') o.

Module SampleIngestion.

Import Sample.

(** A store whose schema has no category column yet. *)
Definition old_schema : Services (list InsertData) :=
  services (fun _ => false) false (fun _ => no_rows) (fun _ => no_rows).

(** A provider that cannot embed the word "fee". *)
Definition fee_unembeddable : Services (list InsertData) :=
  services (String.eqb "fee") true (fun _ => no_rows) (fun _ => no_rows).

Definition tagged_c1 : Metadata := {[ "categoryId" := JStr "c1" ]}.

Definition gcash : Chunk := {| pageContent := "GCash"; chunk_metadata := ∅ |}.

End SampleIngestion.

(** ** Further vocabulary *)


(** The characters of the filter syntax that [or_filter_of] writes itself:
    the full stop, the percent sign and the comma. *)
Definition is_filter_syntax (c : ascii) : bool :=
  (code c =? 46)%N || (code c =? 37)%N || (code c =? 44)%N.

(** What a trace says was asked of the content search. *)
Definition select_requests (tr : list Event) : list (string * Z) :=
  flat_map (fun ev => match ev with
                      | EvSelect or_filter count _ => [(or_filter, count)]
                      | _ => []
                      end) tr.

(** The threshold of every nearest-neighbour request of a trace, with the
    answer it got. *)
Definition match_answers (tr : list Event) : list (Q * Response) :=
  flat_map (fun ev => match ev with
                      | EvMatchDocuments _ threshold _ resp => [(threshold, resp)]
                      | _ => []
                      end) tr.

(** The answer recorded in an event is one the collaborators give to that
    request, in some state of theirs. *)
Definition answered_by {World : Type} (svc : Services World) (ev : Event) : Prop :=
  match ev with
  | EvEmbed text ty outcome => exists w, snd (embed_call svc text ty w) = outcome
  | EvInsert r err => exists w, snd (insert_call svc r w) = err
  | EvMatchDocuments emb threshold count resp =>
      exists w, snd (match_documents svc emb threshold count w) = resp
  | EvSelect or_filter count resp =>
      exists w, snd (select_or_ilike svc or_filter count w) = resp
  end.

(** A computation only ever extends the trace, by calls the collaborators
    answered. *)
Definition extends_trace {World A : Type} (svc : Services World) (m : M World A) : Prop :=
  forall st, exists delta,
    trace (fst (m st)) = trace st ++ delta /\ Forall (answered_by svc) delta.

(** A store that applies the similarity floor it is given: the rows of a
    nearest-neighbour answer are at least as similar as the threshold. *)
Definition enforces_threshold {World : Type} (svc : Services World) : Prop :=
  forall emb threshold count w rows,
    data (snd (match_documents svc emb threshold count w)) = Some rows ->
    Forall (fun d => (threshold <= sim d)%Q) rows.


(** The hits of one similarity class, in their order. *)
Definition of_similarity (q : Q) (docs : list Doc) : list Doc :=
  List.filter (fun d => Qeq_bool (sim d) q) docs.

(** The first topic whose trigger occurs in the lower-cased query. *)
Definition first_triggered (query : string) : option Topic :=
  List.find (triggered (toLowerCase query)) topics.

Module SampleFloor.

Import Sample.

(** A store that returns one stored passage when its similarity, 0.42,
    reaches the threshold asked for. *)
Definition floor_store : Services (list InsertData) :=
  {| embed_call := fun _ _ w => (w, inl []);
     createDocuments := one_chunk_per_word;
     insert_call := insert_row true;
     match_documents := fun _ threshold _ w =>
       (w, if Qle_bool threshold (42 # 100)
           then {| data := Some [row 3 "Open daily" (Some (42 # 100))]; error := None |}
           else no_rows);
     select_or_ilike := fun _ _ w => (w, no_rows) |}.

(** A provider and a store that accept everything. *)
Definition accepting : Services (list InsertData) :=
  services (fun _ => false) true (fun _ => no_rows) (fun _ => no_rows).

End SampleFloor.

(** ** Guest sessions (the browser-side session helper) *)

Module GuestSession.

(** The browser as the helper sees it: whether there is a [window] at all
    (there is none during server-side rendering) and the [localStorage]. *)
Record Browser := { has_window : bool; localStorage : gmap string string }.

Definition GUEST_SESSION_KEY : string := "guest_session_id".

(** [localStorage.getItem(key)]; [None] is [null]. *)
Definition getItem (key : string) (b : Browser) : option string :=
  localStorage b !! key.

(** [localStorage.setItem(key, value)] *)
Definition setItem (key value : string) (b : Browser) : Browser :=
  {| has_window := has_window b;
     localStorage := <[key := value]> (localStorage b) |}.

(** [localStorage.removeItem(key)] *)
Definition removeItem (key : string) (b : Browser) : Browser :=
  {| has_window := has_window b;
     localStorage := delete key (localStorage b) |}.

(** [!sessionId] for a string or [null] *)
Definition falsy (v : option string) : bool :=
  match v with
  | None => true
  | Some s => String.eqb s EmptyString
  end.

(** [getOrCreateGuestSessionId()]; [randomUUID] is what [crypto.randomUUID()]
    returns if it is called. *)
Definition getOrCreateGuestSessionId (randomUUID : string) (b : Browser)
    : string * Browser :=
  if negb (has_window b) then (EmptyString, b)
  else
    let sessionId := getItem GUEST_SESSION_KEY b in
    if falsy sessionId then
      let sessionId := ("guest_" ++ randomUUID)%string in
      (sessionId, setItem GUEST_SESSION_KEY sessionId b)
    else (default EmptyString sessionId, b).

(** [getGuestSessionId()]; [None] is [null]. *)
Definition getGuestSessionId (b : Browser) : option string :=
  if negb (has_window b) then None
  else getItem GUEST_SESSION_KEY b.

(** [clearGuestSession()] *)
Definition clearGuestSession (b : Browser) : Browser :=
  if has_window b then removeItem GUEST_SESSION_KEY b else b.

(** [isGuestSession(sessionId)]: [sessionId.startsWith('guest_')] *)
Definition isGuestSession (sessionId : string) : bool :=
  prefix_of "guest_" sessionId.

End GuestSession.

(** ** The workflow test route ([POST /api/workflows/test]) *)

Module WorkflowTestRoute.

(** A property read off the request body.  Numbers are integers here. *)
Inductive Field :=
| FUndefined
| FNull
| FBool (b : bool)
| FNum (n : Z)
| FStr (s : string)
| FObject.

Definition truthy_field (f : Field) : bool :=
  match f with
  | FUndefined | FNull => false
  | FBool b => b
  | FNum n => negb (n =? 0)%Z
  | FStr s => negb (String.eqb s EmptyString)
  | FObject => true
  end.

(** What a [catch] receives: an [Error] with its message, or another
    value. *)
Inductive Caught :=
| ErrorObject (message : string)
| OtherValue.

(** What [req.json()] resolves to: [null], or a value with its properties
    (a number, a string, a boolean or an array has none of the three that
    the route reads). *)
Inductive Body :=
| JsonNull
| JsonValue (properties : gmap string Field).

Inductive Payload :=
| ErrorPayload (error : string)
| SuccessPayload (message : string).

(** [NextResponse.json(payload, { status })]; the status is 200 when none is
    given. *)
Record Response := { payload : Payload; status : Z }.

(** One call of [executeWorkflow]. *)
Record Execution := {
  ex_workflowId : Field;
  ex_leadId : Field;
  ex_senderId : Field;
  ex_skipPublishCheck : bool
}.

(** The workflow engine, which is not part of this module: it may throw.
    [null_body_error] is the message of the [TypeError] the engine raises
    when [null] is destructured. *)
Record Engine (World : Type) := {
  executeWorkflow : Execution -> World -> World * option Caught;
  null_body_error : string
}.
Arguments executeWorkflow {World}.
Arguments null_body_error {World}.

Definition read (properties : gmap string Field) (key : string) : Field :=
  default FUndefined (properties !! key).

(** The [catch] block. *)
Definition failure (error : Caught) : Response :=
  {| payload :=
       ErrorPayload (match error with
                     | ErrorObject message => message
                     | OtherValue => "Failed to execute workflow"
                     end);
     status := 500 |}.

(** [POST(req)], given what [req.json()] does: reject with a value, or
    resolve to a body.  The state is that of the engine with the list of the
    executions requested so far. *)
Definition POST {World : Type} (engine : Engine World) (json : Caught + Body)
    (st : World * list Execution) : (World * list Execution) * Response :=
  match json with
  | inl error => (st, failure error)
  | inr JsonNull => (st, failure (ErrorObject (null_body_error engine)))
  | inr (JsonValue properties) =>
      let workflowId := read properties "workflowId" in
      let leadId := read properties "leadId" in
      let senderId := read properties "senderId" in
      if negb (truthy_field workflowId) || negb (truthy_field leadId)
         || negb (truthy_field senderId)
      then (st, {| payload := ErrorPayload "workflowId, leadId, and senderId are required";
                   status := 400 |})
      else
        let execution :=
          {| ex_workflowId := workflowId; ex_leadId := leadId;
             ex_senderId := senderId; ex_skipPublishCheck := true |} in
        let (w, thrown) := executeWorkflow engine execution (fst st) in
        let st' := (w, snd st ++ [execution]) in
        match thrown with
        | Some error => (st', failure error)
        | None =>
            (st', {| payload := SuccessPayload
                       "Workflow execution started. Check console logs for details.";
                     status := 200 |})
        end
  end.

(** An engine that runs every workflow without complaint. *)
Definition obliging : Engine unit :=
  {| executeWorkflow := fun _ w => (w, None);
     null_body_error := "Cannot destructure property 'workflowId' of null" |}.

Definition complete_body : Body :=
  JsonValue {[ "workflowId" := FStr "wf-1"; "leadId" := FStr "lead-7";
               "senderId" := FStr "24601" ]}.

End WorkflowTestRoute.

(** ** Vocabulary for the constants of a search *)


(** A store whose nearest-neighbour search is down while its content search
    finds the price list. *)
Module SampleIsolation.

Import Sample.

Definition neighbours_down : Services (list InsertData) :=
  services (fun _ => false) true (fun _ => store_down)
    (fun _ => {| data := Some [row 7 "Price list: 100 pesos" None];
                 error := None |}).

End SampleIsolation.

(** ** The metadata argument of [addDocument] *)

(** The parameter is declared [metadata: any = {}].  A caller may leave it
    out (which is to pass [undefined]), pass [null], or pass any other
    value; of such a value the code reads the property [categoryId] and
    spreads the own properties, which are what [MetaValue] carries (a
    number or a boolean has none). *)
Inductive MetadataArgument :=
| MetaUndefined
| MetaNull
| MetaValue (properties : Metadata).

Module JsCall.

(** [addDocument(content, metadata)] for an argument of any kind.  The
    default [{}] stands in for [undefined] only.  Of [null] the first
    statement of the [try] block, [metadata.categoryId], throws a
    [TypeError], which the [catch] turns into [false] before the splitter
    or any collaborator is called. *)
Definition addDocument {World : Type} (svc : Services World) (content : string)
    (metadata : MetadataArgument) : M World bool :=
  match metadata with
  | MetaUndefined => addDocument svc content ∅
  | MetaValue properties => addDocument svc content properties
  | MetaNull =>
      try_catch
        (throw {| message :=
                    Some "Cannot read properties of null (reading 'categoryId')" |})
        (fun _ => ret false)
  end.

End JsCall.


(** ** Vocabulary for the errors of an ingestion *)




Module SampleConstraint.

Import Sample.




End SampleConstraint.

(** ** Vocabulary for the punctuation of a query *)

(** [s] without its ASCII punctuation marks other than the underscore. *)
Fixpoint strip_punctuation (s : string) : string :=
  match s with
  | EmptyString => EmptyString
  | String c r =>
      if is_punctuation c && negb (is_word c) then strip_punctuation r
      else String c (strip_punctuation r)
  end.
(** ** Facts about JavaScript strings *)

Section StringFacts.



End StringFacts.

(** ** Question variations *)

Lemma generateQuestionVariations_by_topic query :
  generateQuestionVariations query = variations_by_topic topics query.
Proof.
  unfold generateQuestionVariations, variations_by_topic, topics, triggered.
  cbn [List.filter existsb triggers pricing product delivery payment].
  rewrite !orb_false_r, <- !orb_assoc.
  repeat match goal with
         | |- context [if ?b then _ else _] =>
             match b with
             | context [includes] => destruct b
             end
         end; reflexivity.
Qed.



(** ** Key terms *)

Section KeyTerms.

Lemma lower_char_not_upper c : is_upper (lower_char c) = false.
Proof. destruct c as [[] [] [] [] [] [] [] []]; reflexivity. Qed.

Lemma word_not_upper_is_term_char c :
  is_word c = true -> is_upper c = false -> is_term_char c = true.
Proof.
  unfold is_word, is_term_char. intros Hw Hu. now rewrite Hu in Hw.
Qed.

Lemma string_forall_impl (P R : ascii -> bool) s :
  (forall c, P c = true -> R c = true) ->
  string_forall P s = true -> string_forall R s = true.
Proof.
  intros HPR. induction s as [|c s IH]; simpl; [easy|].
  intros H. apply andb_prop in H as [Hc Hs].
  now rewrite (HPR c Hc), (IH Hs).
Qed.

Lemma toLowerCase_no_upper s :
  string_forall (fun c => negb (is_upper c)) (toLowerCase s) = true.
Proof.
  induction s as [|c s IH]; simpl; [easy|].
  now rewrite lower_char_not_upper, IH.
Qed.

Lemma strip_non_word_chars (P : ascii -> bool) s :
  string_forall P s = true ->
  string_forall (fun c => P c && (is_word c || is_space c)) (strip_non_word s) = true.
Proof.
  induction s as [|c s IH]; simpl; [easy|].
  intros H. apply andb_prop in H as [Hc Hs].
  destruct (is_word c || is_space c) eqn:E; simpl.
  - now rewrite Hc, E, (IH Hs).
  - now apply IH.
Qed.

Lemma split_ws_chars (P : ascii -> bool) s :
  string_forall P s = true ->
  forall t, In t (split_ws s) ->
    string_forall (fun c => P c && negb (is_space c)) t = true.
Proof.
  induction s as [|c s IH]; simpl.
  - intros _ t [<-|[]]. reflexivity.
  - intros H t Ht. apply andb_prop in H as [Hc Hs].
    specialize (IH Hs).
    destruct (is_space c) eqn:Esp.
    + destruct (starts_with_space s).
      * now apply IH.
      * destruct Ht as [<-|Ht]; [reflexivity|now apply IH].
    + destruct (split_ws s) as [|t0 ts] eqn:Esplit.
      * destruct Ht as [<-|[]]. simpl. now rewrite Hc, Esp.
      * destruct Ht as [<-|Ht].
        -- simpl. rewrite Hc, Esp. simpl. apply IH. now left.
        -- apply IH. now right.
Qed.

(** Every piece of the normalised query is made of lower-case letters,
    digits and underscores only. *)
Lemma normalised_token_chars query t :
  In t (split_ws (strip_non_word (toLowerCase query))) ->
  string_forall is_term_char t = true.
Proof.
  intros Ht.
  pose proof (split_ws_chars _ _
                (strip_non_word_chars _ _ (toLowerCase_no_upper query)) t Ht) as H.
  revert H. apply string_forall_impl. intros c Hc.
  apply andb_prop in Hc as [Hc Hsp].
  apply andb_prop in Hc as [Hup Hws].
  apply negb_true_iff in Hup, Hsp. rewrite Hsp, orb_false_r in Hws.
  now apply word_not_upper_is_term_char.
Qed.

(** *** The insertion-ordered set *)

Lemma mem_In w acc : mem w acc = true <-> In w acc.
Proof.
  unfold mem. rewrite existsb_exists. split.
  - intros (x & Hx & E). apply String.eqb_eq in E. now subst.
  - intros H. exists w. split; [exact H|apply String.eqb_refl].
Qed.

Lemma mem_app w a b : mem w (a ++ b) = mem w a || mem w b.
Proof. unfold mem. apply existsb_app. Qed.

Lemma filter_filter_absorb (f g : string -> bool) l :
  (forall x, f x = true -> g x = true) ->
  List.filter f (List.filter g l) = List.filter f l.
Proof.
  intros Hfg. induction l as [|x l IH]; simpl; [easy|].
  destruct (g x) eqn:Eg; simpl.
  - destruct (f x); now rewrite IH.
  - destruct (f x) eqn:Ef; [|exact IH].
    apply Hfg in Ef. congruence.
Qed.

Lemma filter_filter_and (f g : string -> bool) l :
  List.filter f (List.filter g l) = List.filter (fun x => f x && g x) l.
Proof.
  induction l as [|x l IH]; simpl; [easy|].
  destruct (g x); simpl.
  - rewrite andb_true_r. destruct (f x); now rewrite IH.
  - now rewrite andb_false_r.
Qed.

Lemma fold_set_add words : forall acc,
  fold_left set_add words acc =
  acc ++ List.filter (fun y => negb (mem y acc)) (first_occurrences words).
Proof.
  induction words as [|x words IH]; intros acc; simpl.
  - now rewrite app_nil_r.
  - rewrite IH. unfold set_add. fold (mem x acc).
    destruct (mem x acc) eqn:Ex; simpl.
    + f_equal. symmetry. apply filter_filter_absorb.
      intros y Hy. apply negb_true_iff. apply negb_true_iff in Hy.
      destruct (String.eqb y x) eqn:E; [|reflexivity].
      apply String.eqb_eq in E. subst. congruence.
    + rewrite <- app_assoc. simpl. f_equal. f_equal.
      rewrite filter_filter_and. apply filter_ext. intros y.
      rewrite mem_app. unfold mem at 2. simpl. rewrite orb_false_r.
      now rewrite negb_orb.
Qed.

Lemma set_of_array_first_occurrences words :
  set_of_array words = first_occurrences words.
Proof.
  unfold set_of_array. rewrite fold_set_add. simpl.
  induction (first_occurrences words) as [|y l IH]; simpl; [easy|].
  now rewrite IH.
Qed.

Lemma first_occurrences_In l x : In x (first_occurrences l) <-> In x l.
Proof.
  induction l as [|y l IH]; simpl; [tauto|].
  rewrite filter_In, IH, negb_true_iff, String.eqb_neq.
  destruct (string_dec y x) as [->|Hne]; [tauto|].
  split; [tauto|]. intros [H|H]; [tauto|]. right. split; [exact H|congruence].
Qed.

Lemma NoDup_filter_list (f : string -> bool) l :
  List.NoDup l -> List.NoDup (List.filter f l).
Proof.
  induction 1 as [|x l Hx Hl IH]; simpl; [constructor|].
  destruct (f x); [|exact IH].
  constructor; [|exact IH]. rewrite filter_In. tauto.
Qed.

Lemma first_occurrences_NoDup l : List.NoDup (first_occurrences l).
Proof.
  induction l as [|y l IH]; simpl; constructor.
  - rewrite filter_In, negb_true_iff, String.eqb_neq. tauto.
  - now apply NoDup_filter_list.
Qed.

Lemma firstn_In {A} (n : nat) (l : list A) x : In x (firstn n l) -> In x l.
Proof.
  revert n. induction l as [|y l IH]; intros [|n]; simpl; try tauto.
  intros [H|H]; [now left|right; now apply (IH n)].
Qed.

Lemma NoDup_firstn_list (n : nat) (l : list string) :
  List.NoDup l -> List.NoDup (firstn n l).
Proof.
  intros H. revert n. induction H as [|x l Hx Hl IH]; intros [|n]; simpl;
    try constructor.
  - intros Hin. apply Hx. revert Hin. apply firstn_In.
  - apply IH.
Qed.

End KeyTerms.

(** C6 (as amended).  [extractKeyTerms] is a function of the query alone.
    For every query it lower-cases the text, removes every character that is
    neither a word character (a letter, a digit or the underscore) nor white
    space, splits on white space, discards every piece of length at most 2
    and every piece in the stop-word set, removes duplicates and returns at
    most the first 5 remaining pieces in their original order.  So every
    term is made of lower-case letters, digits and underscores; the
    underscore is kept.  For "What is the price of the item?" the result is
    "price" then "item". *)
Theorem extractKeyTerms_spec (query : string) :
  extractKeyTerms query = firstn 5 (first_occurrences (qualifying_tokens query)) /\
  (length (extractKeyTerms query) <= 5)%nat /\
  List.NoDup (extractKeyTerms query) /\
  (forall t, In t (extractKeyTerms query) ->
     In t (split_ws (strip_non_word (toLowerCase query))) /\
     (2 < String.length t)%nat /\
     (t ∉ stopWords) /\
     string_forall is_term_char t = true) /\
  extractKeyTerms "What is the price of the item?" = ["price"; "item"] /\
  extractKeyTerms "snake_case" = ["snake_case"].
Proof.
  assert (Heq : extractKeyTerms query =
                firstn 5 (first_occurrences (qualifying_tokens query))).
  { unfold extractKeyTerms, qualifying_tokens.
    now rewrite set_of_array_first_occurrences. }
  split; [exact Heq|]. rewrite Heq.
  split; [apply firstn_le_length|].
  split; [apply NoDup_firstn_list, first_occurrences_NoDup|].
  split; [|split; vm_compute; reflexivity].
  intros t Ht. apply firstn_In in Ht. rewrite first_occurrences_In in Ht.
  unfold qualifying_tokens in Ht. apply filter_In in Ht as [Htok Hkeep].
  unfold keep_word in Hkeep. apply andb_prop in Hkeep as [Hlen Hstop].
  split; [exact Htok|]. split; [now apply Nat.ltb_lt in Hlen|].
  split.
  - apply negb_true_iff in Hstop. now apply bool_decide_eq_false in Hstop.
  - now apply (normalised_token_chars query).
Qed.

Lemma extractKeyTerms_spec_witness :
  In "item" (extractKeyTerms "What is the price of the item?") /\
  string_forall is_term_char "item" = true.
Proof.
  assert (H : In "item" (extractKeyTerms "What is the price of the item?")).
  { vm_compute. tauto. }
  split; [exact H|].
  apply (extractKeyTerms_spec "What is the price of the item?" ); exact H.
Defined.

(** As worded in the specification, with all punctuation stripped, the
    property fails on the underscore, which is a word character. *)
Lemma extractKeyTerms_keeps_underscore : ~ punctuation_stripped "snake_case".
Proof.
  intros H. specialize (H "snake_case").
  assert (Hin : In "snake_case" (extractKeyTerms "snake_case")).
  { vm_compute. tauto. }
  apply H in Hin. vm_compute in Hin. discriminate.
Qed.

(** ** Deduplication by content *)

Section Dedupe.

Local Open Scope Q_scope.

Lemma Qgtb_true a b : Qgtb a b = true <-> b < a.
Proof.
  unfold Qgtb. rewrite negb_true_iff. split.
  - intros H. apply Qnot_le_lt. intros Hle.
    apply Qle_bool_iff in Hle. congruence.
  - intros H. destruct (Qle_bool a b) eqn:E; [|reflexivity].
    apply Qle_bool_iff in E. exfalso. now apply (Qlt_not_le b a).
Qed.

Lemma Qgtb_false a b : Qgtb a b = false <-> a <= b.
Proof.
  unfold Qgtb. rewrite negb_false_iff. apply Qle_bool_iff.
Qed.

(** *** The insertion-ordered map *)

Lemma map_get_In m k v : map_get m k = Some v -> In (k, v) m.
Proof.
  induction m as [|[k' v'] m IH]; simpl; [discriminate|].
  destruct (String.eqb k k') eqn:E.
  - apply String.eqb_eq in E. intros [= ->]. subst. now left.
  - intros H. right. now apply IH.
Qed.

Lemma map_get_None m k : map_get m k = None <-> ~ In k (map fst m).
Proof.
  induction m as [|[k' v'] m IH]; simpl; [tauto|].
  destruct (String.eqb k k') eqn:E.
  - apply String.eqb_eq in E. subst. split; [discriminate|tauto].
  - apply String.eqb_neq in E. rewrite IH. split; [|tauto].
    intros H [H'|H']; [congruence|tauto].
Qed.

Lemma In_map_get m k v :
  List.NoDup (map fst m) -> In (k, v) m -> map_get m k = Some v.
Proof.
  induction m as [|[k' v'] m IH]; simpl; [tauto|].
  intros Hnd [H|H].
  - injection H as -> ->. now rewrite String.eqb_refl.
  - inversion Hnd as [|? ? Hnotin Hnd']; subst.
    destruct (String.eqb k k') eqn:E; [|now apply IH].
    apply String.eqb_eq in E. subst. exfalso. apply Hnotin.
    change k' with (fst (k', v)). now apply in_map.
Qed.

Lemma map_set_absent m k v :
  map_get m k = None -> map_set m k v = m ++ [(k, v)].
Proof.
  induction m as [|[k' v'] m IH]; simpl; [reflexivity|].
  destruct (String.eqb k k'); [discriminate|].
  intros H. now rewrite IH.
Qed.

Lemma map_set_keys_present m k v :
  In k (map fst m) -> map fst (map_set m k v) = map fst m.
Proof.
  induction m as [|[k' v'] m IH]; simpl; [tauto|].
  destruct (String.eqb k k') eqn:E; [reflexivity|].
  apply String.eqb_neq in E. intros [H|H]; [congruence|].
  simpl. now rewrite IH.
Qed.

Lemma map_get_set m k v k' :
  map_get (map_set m k v) k' = if String.eqb k' k then Some v else map_get m k'.
Proof.
  induction m as [|[k0 v0] m IH]; simpl; [reflexivity|].
  destruct (String.eqb k k0) eqn:E; simpl.
  - apply String.eqb_eq in E. subst k0.
    now destruct (String.eqb k' k).
  - rewrite IH. apply String.eqb_neq in E.
    destruct (String.eqb k' k0) eqn:E0; [|reflexivity].
    apply String.eqb_eq in E0. subst k0.
    destruct (String.eqb k' k) eqn:E1; [|reflexivity].
    apply String.eqb_eq in E1. congruence.
Qed.

Lemma map_get_is_Some_keys m k v : map_get m k = Some v -> In k (map fst m).
Proof.
  intros H. destruct (in_dec string_dec k (map fst m)) as [Hin|Hn]; [exact Hin|].
  apply map_get_None in Hn. congruence.
Qed.

(** *** The loop invariant *)

Lemma first_best_snoc_le l v d :
  first_best l v -> (content d = content v -> sim d <= sim v) ->
  first_best (l ++ [d]) v.
Proof.
  intros (before & after & -> & Hb & Ha) Hd.
  exists before, (after ++ [d])%list. split; [|split].
  - now rewrite <- app_assoc.
  - exact Hb.
  - intros x Hx Hc. apply in_app_or in Hx as [Hx|[<-|[]]]; auto.
Qed.

Lemma first_best_new l d :
  (forall x, In x l -> content x = content d -> sim x < sim d) ->
  first_best (l ++ [d]) d.
Proof.
  intros H. exists l, []. split; [reflexivity|]. split; [exact H|].
  intros x [].
Qed.

Lemma first_best_dominates l v x :
  first_best l v -> In x l -> content x = content v -> sim x <= sim v.
Proof.
  intros (before & after & -> & Hb & Ha) Hx Hc.
  apply in_app_or in Hx as [Hx|[<-|Hx]].
  - apply Qlt_le_weak. now apply Hb.
  - apply Qle_refl.
  - now apply Ha.
Qed.

Lemma dedupe_step_inv l m d :
  seen_inv l m -> seen_inv (l ++ [d]) (dedupe_step m d).
Proof.
  intros (Hnd & Hget & Hall). unfold dedupe_step.
  destruct (map_get m (content d)) as [existing|] eqn:Eget.
  - destruct (Hget _ _ Eget) as [Hce Hbest].
    destruct (Qgtb (sim d) (sim existing)) eqn:Egt.
    + (* the new hit ranks strictly higher: it replaces the old one *)
      apply Qgtb_true in Egt.
      split; [|split].
      * rewrite map_set_keys_present; [exact Hnd|].
        now apply (map_get_is_Some_keys m _ existing).
      * intros k v. rewrite map_get_set.
        destruct (String.eqb k (content d)) eqn:Ek.
        -- apply String.eqb_eq in Ek. intros [= <-]. split; [now symmetry|].
           apply first_best_new. intros x Hx Hc.
           apply Qle_lt_trans with (sim existing); [|exact Egt].
           apply (first_best_dominates l); [exact Hbest|exact Hx|congruence].
        -- apply String.eqb_neq in Ek. intros Hk.
           destruct (Hget _ _ Hk) as [Hcv Hb]. split; [exact Hcv|].
           apply first_best_snoc_le; [exact Hb|]. congruence.
      * intros x Hx. rewrite map_get_set.
        destruct (String.eqb (content x) (content d)); [discriminate|].
        apply in_app_or in Hx as [Hx|[<-|[]]]; [now apply Hall|].
        rewrite Eget. discriminate.
    + (* ties and lower ranks keep the old hit *)
      apply Qgtb_false in Egt.
      split; [exact Hnd|split].
      * intros k v Hk. destruct (Hget _ _ Hk) as [Hcv Hb].
        split; [exact Hcv|]. apply first_best_snoc_le; [exact Hb|].
        intros Hc. assert (v = existing) as -> by congruence. exact Egt.
      * intros x Hx.
        apply in_app_or in Hx as [Hx|[<-|[]]]; [now apply Hall|].
        rewrite Eget. discriminate.
  - (* first hit with this content *)
    rewrite (map_set_absent _ _ _ Eget).
    split; [|split].
    + rewrite map_app. simpl. apply List.NoDup_app; [exact Hnd| |].
      * repeat constructor. intros [].
      * intros k Hk [<-|[]]. apply map_get_None in Eget. contradiction.
    + intros k v. rewrite <- (map_set_absent _ _ _ Eget), map_get_set.
      destruct (String.eqb k (content d)) eqn:Ek.
      * apply String.eqb_eq in Ek. intros [= <-]. split; [now symmetry|].
        apply first_best_new. intros x Hx Hc.
        apply Hall in Hx. rewrite Hc in Hx. contradiction.
      * apply String.eqb_neq in Ek. intros Hk.
        destruct (Hget _ _ Hk) as [Hcv Hb]. split; [exact Hcv|].
        apply first_best_snoc_le; [exact Hb|]. congruence.
    + intros x Hx. rewrite <- (map_set_absent _ _ _ Eget), map_get_set.
      destruct (String.eqb (content x) (content d)) eqn:Ex; [discriminate|].
      apply in_app_or in Hx as [Hx|[<-|[]]]; [now apply Hall|].
      now rewrite String.eqb_refl in Ex.
Qed.

Lemma dedupe_inv l : seen_inv l (dedupe l).
Proof.
  induction l as [|d l IH] using rev_ind.
  - split; [constructor|]. split; [discriminate|intros x []].
  - unfold dedupe. rewrite fold_left_app. simpl. now apply dedupe_step_inv.
Qed.

Lemma map_values_In m r :
  In r (map_values m) -> exists k, In (k, r) m.
Proof.
  unfold map_values. rewrite in_map_iff. intros ([k v] & <- & H). now exists k.
Qed.

Lemma dedupe_value_get l r :
  In r (map_values (dedupe l)) -> map_get (dedupe l) (content r) = Some r.
Proof.
  intros Hr. destruct (dedupe_inv l) as (Hnd & Hget & _).
  apply map_values_In in Hr as [k Hk].
  pose proof (In_map_get _ _ _ Hnd Hk) as Hg.
  destruct (Hget _ _ Hg) as [-> _]. exact Hg.
Qed.

Lemma dedupe_contents_NoDup l :
  List.NoDup (map content (map_values (dedupe l))).
Proof.
  destruct (dedupe_inv l) as (Hnd & Hget & _).
  replace (map content (map_values (dedupe l))) with (map fst (dedupe l));
    [exact Hnd|].
  unfold map_values. rewrite map_map. apply map_ext_in.
  intros [k v] Hin. simpl.
  destruct (Hget _ _ (In_map_get _ _ _ Hnd Hin)) as [-> _]. reflexivity.
Qed.

Lemma dedupe_first_best l r :
  In r (map_values (dedupe l)) -> first_best l r.
Proof.
  intros Hr. destruct (dedupe_inv l) as (_ & Hget & _).
  now destruct (Hget _ _ (dedupe_value_get _ _ Hr)).
Qed.

Lemma dedupe_represents l d :
  In d l -> exists r, In r (map_values (dedupe l)) /\ content r = content d.
Proof.
  intros Hd. destruct (dedupe_inv l) as (_ & Hget & Hall).
  destruct (map_get (dedupe l) (content d)) as [r|] eqn:E.
  - exists r. split; [|now destruct (Hget _ _ E)].
    unfold map_values. apply in_map_iff. exists (content d, r).
    split; [reflexivity|now apply map_get_In].
  - now apply Hall in Hd.
Qed.

(** *** The stable descending sort *)

Lemma insert_desc_perm d l : Permutation (insert_desc d l) (d :: l).
Proof.
  induction l as [|x l IH]; simpl; [reflexivity|].
  destruct (Qgtb (sim x) (sim d)); [|reflexivity].
  rewrite IH. apply perm_swap.
Qed.

Lemma sort_desc_perm l : Permutation (sort_desc l) l.
Proof.
  induction l as [|x l IH]; simpl; [reflexivity|].
  rewrite insert_desc_perm. now constructor.
Qed.

Lemma insert_desc_ranked d l : ranked l -> ranked (insert_desc d l).
Proof.
  unfold ranked. induction 1 as [|x l Hl IH Hx]; simpl.
  - repeat constructor.
  - destruct (Qgtb (sim x) (sim d)) eqn:E.
    + apply Qgtb_true in E. constructor; [exact IH|].
      apply List.Forall_forall. intros y Hy.
      apply (Permutation_in _ (insert_desc_perm d l)) in Hy as [<-|Hy].
      * now apply Qlt_le_weak.
      * rewrite List.Forall_forall in Hx. now apply Hx.
    + apply Qgtb_false in E. constructor; [now constructor|].
      constructor; [exact E|].
      apply List.Forall_forall. intros y Hy. rewrite List.Forall_forall in Hx.
      apply Qle_trans with (sim x); [now apply Hx|exact E].
Qed.

Lemma sort_desc_ranked l : ranked (sort_desc l).
Proof.
  induction l as [|x l IH]; simpl; [constructor|].
  now apply insert_desc_ranked.
Qed.

End Dedupe.

(** C2.  For every sequence of gathered hits, the deduplication keeps
    exactly one hit per distinct content string: the contents of the kept
    hits are pairwise distinct and every gathered hit has a kept hit with
    its content, of at least its similarity (an absent similarity counts as
    0).  The kept hit is the first one of highest similarity: every earlier
    hit with that content ranks strictly lower and every later one ranks no
    higher, so on a tie the hit met first stays.  In the loop, a hit that
    ranks strictly above the hit kept so far for its content is the kept
    hit afterwards. *)
Theorem dedupe_keeps_first_highest (allResults : list Doc) :
  List.NoDup (map content (map_values (dedupe allResults))) /\
  (forall d, In d allResults ->
     exists r, In r (map_values (dedupe allResults)) /\
               content r = content d /\ (sim d <= sim r)%Q) /\
  (forall r, In r (map_values (dedupe allResults)) -> first_best allResults r) /\
  (forall seenContent doc existing,
     map_get seenContent (content doc) = Some existing ->
     (sim existing < sim doc)%Q ->
     map_get (dedupe_step seenContent doc) (content doc) = Some doc).
Proof.
  split; [apply dedupe_contents_NoDup|]. split; [|split].
  - intros d Hd. destruct (dedupe_represents _ _ Hd) as (r & Hr & Hc).
    exists r. split; [exact Hr|]. split; [exact Hc|].
    apply (first_best_dominates allResults); [|exact Hd|now symmetry].
    now apply dedupe_first_best.
  - apply dedupe_first_best.
  - intros seen doc existing Hget Hlt. unfold dedupe_step. rewrite Hget.
    apply Qgtb_true in Hlt. rewrite Hlt, map_get_set.
    now rewrite String.eqb_refl.
Qed.

Lemma dedupe_keeps_first_highest_witness :
  map_values (dedupe [row 1 "fee" (Some (4 # 10)); row 2 "fee" (Some (9 # 10))])
    = [row 2 "fee" (Some (9 # 10))] /\
  map_get (dedupe_step [("fee", row 1 "fee" (Some (4 # 10)))]
             (row 2 "fee" (Some (9 # 10)))) "fee"
    = Some (row 2 "fee" (Some (9 # 10))).
Proof.
  destruct (dedupe_keeps_first_highest
              [row 1 "fee" (Some (4 # 10)); row 2 "fee" (Some (9 # 10))])
    as (_ & _ & _ & Hstep).
  split; [reflexivity|].
  apply (Hstep [("fee", row 1 "fee" (Some (4 # 10)))]
           (row 2 "fee" (Some (9 # 10))) (row 1 "fee" (Some (4 # 10))));
    reflexivity.
Defined.

(** ** The calls of a search *)

Section SearchCalls.

Context {World : Type} (svc : Services World).

Lemma searchDocuments_run query limit st :
  searchDocuments svc query limit st =
  match gather svc query limit st with
  | (st', Returned allResults) => (st', Returned (render limit allResults))
  | (st', Thrown _) => (st', Returned "")
  end.
Proof.
  unfold searchDocuments, try_catch, bind, ret.
  now destruct (gather svc query limit st) as [st' [allResults|e]].
Qed.

Lemma search_variations_calls variations : forall qaResults st,
  exists delta o,
    trace (fst (search_variations svc variations qaResults st)) = trace st ++ delta /\
    variation_calls variations delta o /\
    snd (search_variations svc variations qaResults st) =
      match o with
      | Returned answers => Returned (qaResults ++ flat_map variation_hits answers)
      | Thrown e => Thrown e
      end.
Proof.
  induction variations as [|variation rest IH]; intros qaResults st.
  - exists [], (Returned []). cbn. rewrite !app_nil_r.
    repeat split. constructor.
  - cbn [search_variations]. unfold bind, getEmbedding, rpc_match_documents.
    destruct (embed_call svc variation Query (world st)) as [w1 [embedding|e]].
    + cbn [world log].
      destruct (match_documents svc embedding (3 # 10) 3 w1) as [w2 resp].
      match goal with
      | |- context [search_variations svc rest ?acc ?s] =>
          destruct (IH acc s) as (delta & o & Htr & Hcalls & Hres)
      end.
      exists (EvEmbed variation Query (inl embedding)
                :: EvMatchDocuments embedding (3 # 10) 3 resp :: delta).
      exists (match o with
              | Returned answers => Returned (resp :: answers)
              | Thrown e => Thrown e
              end).
      split; [|split].
      * rewrite Htr. cbn [trace log]. now rewrite <- !app_assoc.
      * now constructor.
      * rewrite Hres. destruct o as [answers|e]; [|reflexivity].
        cbn [flat_map]. now rewrite <- !app_assoc.
    + exists [EvEmbed variation Query (inr e)], (Thrown e).
      cbn. repeat split. constructor.
Qed.

Lemma bind_run {A B} (m : M World A) (k : A -> M World B) st :
  bind m k st =
  match m st with
  | (st', Returned a) => k a st'
  | (st', Thrown e) => (st', Thrown e)
  end.
Proof. reflexivity. Qed.

Lemma keyword_strategy_calls query limit (s : State World) :
  exists kw_trace keywordResults s',
    (if (0 <? length (extractKeyTerms query))%nat
     then resp <- select_or svc (or_filter_of (extractKeyTerms query)) limit ;;
          ret (keyword_hits resp)
     else ret []) s = (s', Returned keywordResults) /\
    trace s' = trace s ++ kw_trace /\
    keyword_calls query limit kw_trace keywordResults.
Proof.
  destruct (extractKeyTerms query) as [|t ts] eqn:Eterms.
  - exists [], [], s. cbn. rewrite app_nil_r. repeat split. now constructor.
  - cbn [length Nat.ltb Nat.leb]. unfold bind, select_or, ret.
    destruct (select_or_ilike svc (or_filter_of (t :: ts)) limit (world s))
      as [w3 resp].
    exists [EvSelect (or_filter_of (t :: ts)) limit resp], (keyword_hits resp).
    eexists. split; [reflexivity|]. split; [reflexivity|].
    rewrite <- Eterms. constructor. now rewrite Eterms.
Qed.

Lemma gather_calls query limit st :
  exists delta,
    trace (fst (gather svc query limit st)) = trace st ++ delta /\
    search_calls query limit delta (snd (gather svc query limit st)).
Proof.
  unfold gather. rewrite bind_run. unfold getEmbedding.
  destruct (embed_call svc query Query (world st)) as [w1 [embedding|e]].
  2:{ exists [EvEmbed query Query (inr e)]. cbn. split; [reflexivity|constructor]. }
  rewrite bind_run. unfold rpc_match_documents. cbn [world log].
  destruct (match_documents svc embedding (3 # 10) limit w1) as [w2 semantic].
  rewrite bind_run.
  match goal with
  | |- context [(if _ then _ else _) ?s] =>
      destruct (keyword_strategy_calls query limit s)
        as (kw_trace & keywordResults & s' & -> & Htr & Hcalls)
  end.
  rewrite bind_run.
  destruct (search_variations_calls
              (firstn 2 (generateQuestionVariations query)) [] s')
    as (var_trace & o & Hvtr & Hvcalls & Hvres).
  destruct (search_variations svc (firstn 2 (generateQuestionVariations query)) [] s')
    as [s'' out] eqn:Erun.
  cbn [fst snd] in Hvtr, Hvres. subst out.
  exists (EvEmbed query Query (inl embedding)
            :: EvMatchDocuments embedding (3 # 10) limit semantic
            :: kw_trace ++ var_trace).
  split.
  - destruct o; cbn [fst ret]; rewrite Hvtr, Htr; cbn [trace log];
      now rewrite <- !app_assoc.
  - destruct o as [answers|e]; cbn [snd ret].
    + now apply (sc_searched query limit embedding semantic kw_trace
                   keywordResults var_trace (Returned answers)).
    + now apply (sc_searched query limit embedding semantic kw_trace
                   keywordResults var_trace (Thrown e)).
Qed.

End SearchCalls.

(** ** What the call protocol implies *)

Section Protocol.

Lemma variation_calls_facts vs delta o :
  variation_calls vs delta o ->
  Forall (fun r => r = ((3 # 10)%Q, 3%Z)) (match_requests delta) /\
  select_responses delta = [] /\
  (exists embedded more,
      vs = embedded ++ more /\
      embed_requests delta = map (fun v => (v, Query)) embedded /\
      (length (match_requests delta) <= length embedded)%nat) /\
  match o with
  | Returned answers => match_responses delta = answers /\ embed_failures delta = []
  | Thrown e => embed_failures delta = [e]
  end.
Proof.
  unfold match_requests, select_responses, embed_requests, match_responses,
    embed_failures.
  induction 1 as [|v rest e|v rest embedding resp tr o Hcalls IH].
  - cbn. repeat split; [constructor|]. now exists [], [].
  - cbn. repeat split; [constructor|]. exists [v], rest. cbn. repeat split. lia.
  - destruct IH as (Hreq & Hsel & (embedded & more & -> & Hemb & Hlen) & Ho).
    cbn [flat_map app]. repeat split.
    + now constructor.
    + exact Hsel.
    + exists (v :: embedded), more. cbn [map app length]. rewrite Hemb.
      repeat split. lia.
    + destruct o as [answers|e].
      * destruct Ho as [-> ->]. now split.
      * exact Ho.
Qed.

Lemma keyword_calls_facts query limit kw_trace keywordResults :
  keyword_calls query limit kw_trace keywordResults ->
  match_requests kw_trace = [] /\ match_responses kw_trace = [] /\
  embed_requests kw_trace = [] /\ embed_failures kw_trace = [] /\
  keywordResults = flat_map keyword_hits (select_responses kw_trace).
Proof.
  intros [Hnone|resp Hsome]; cbn; repeat split. now rewrite app_nil_r.
Qed.



Lemma keyword_hits_scored resp :
  Forall (fun d => similarity d = Some (1 # 2) /\ matchType d = Some Keyword)
    (keyword_hits resp).
Proof.
  unfold keyword_hits. apply List.Forall_forall. intros d Hd.
  destruct (error resp); [destruct Hd|].
  destruct (data resp); [|destruct Hd].
  apply in_map_iff in Hd as (x & <- & _). now split.
Qed.

Lemma failed_no_hits resp :
  failed resp -> keyword_hits resp = [] /\ variation_hits resp = [].
Proof.
  unfold failed, keyword_hits, variation_hits.
  intros [H|H]; destruct (error resp); try contradiction; try now split.
  all: now rewrite H.
Qed.

Lemma no_data_no_semantic_hits resp : data resp = None -> semantic_hits resp = [].
Proof. unfold semantic_hits. now intros ->. Qed.



(** The merged hits are the semantic ones, then the keyword ones, then the
    variation ones, each computed from the answers to its own calls. *)
Lemma search_calls_merge query limit delta hits :
  search_calls query limit delta (Returned hits) ->
  embed_failures delta = [] /\
  exists semantic answers,
    match_responses delta = semantic :: answers /\
    hits = semantic_hits semantic
             ++ flat_map keyword_hits (select_responses delta)
             ++ flat_map variation_hits answers.
Proof.
  inversion 1 as [|embedding semantic kw_trace kw var_trace o Hkw Hvar Hd Ho].
  destruct o as [answers|e]; [|discriminate]. injection Ho as <-.
  apply variation_calls_facts in Hvar as (_ & Hsel & _ & Hresp & Hfail).
  apply keyword_calls_facts in Hkw as (_ & Hkresp & _ & Hkfail & ->).
  unfold embed_failures, match_responses, select_responses in *.
  cbn [flat_map]. rewrite !flat_map_app, Hsel, Hkresp, Hresp, Hkfail, Hfail.
  cbn. rewrite app_nil_r. split; [reflexivity|]. now exists semantic, answers.
Qed.

Lemma search_calls_thrown query limit delta e :
  search_calls query limit delta (Thrown e) -> embed_failures delta = [e].
Proof.
  inversion 1 as [e' He|embedding semantic kw_trace kw var_trace o Hkw Hvar Hd Ho].
  - reflexivity.
  - destruct o as [answers|e']; [discriminate|]. injection Ho as <-.
    apply variation_calls_facts in Hvar as (_ & _ & _ & Hfail).
    apply keyword_calls_facts in Hkw as (_ & _ & _ & Hkfail & _).
    unfold embed_failures in *. cbn [flat_map].
    now rewrite !flat_map_app, Hkfail, Hfail.
Qed.

End Protocol.


(** ** Ranking and rendering *)

Section Rendering.

Lemma slice0_nonneg {A} (limit : Z) (xs : list A) :
  (0 <= limit)%Z -> slice0 limit xs = firstn (Z.to_nat limit) xs.
Proof.
  intros H. unfold slice0. apply Z.leb_le in H. now rewrite H.
Qed.


Lemma render_join limit hits :
  render limit hits = join blank_line (map content (uniqueResults limit hits)).
Proof.
  unfold render. destruct (uniqueResults limit hits) as [|d l]; reflexivity.
Qed.

Lemma render_claimed limit hits :
  (0 <= limit)%Z -> claimed_output limit hits (render limit hits).
Proof.
  intros Hlimit. right.
  set (sorted := sort_desc (map_values (dedupe hits))).
  exists (firstn (Z.to_nat limit) sorted), (skipn (Z.to_nat limit) sorted).
  rewrite firstn_skipn. split; [apply sort_desc_perm|].
  split; [apply sort_desc_ranked|]. split.
  - pose proof (firstn_le_length (Z.to_nat limit) sorted). lia.
  - rewrite render_join. unfold uniqueResults. now rewrite slice0_nonneg.
Qed.

End Rendering.

(** C3 (as amended).  For every query and every limit that is not negative,
    [searchDocuments] returns a string: the empty string when gathering the
    hits was cut short, and otherwise the contents of the first [limit]
    deduplicated hits in the order of descending similarity (an absent
    similarity counting as 0), joined by a blank line -- which is the empty
    string when there is no hit.  Hits of similarity 0.2, 0.9 and 0.5 with
    limit 2 give the content of the 0.9 hit and then that of the 0.5 hit. *)
Theorem searchDocuments_ranked_output {World : Type} (svc : Services World)
    (st : State World) (query : string) (limit : Z) :
  (0 <= limit)%Z ->
  search_answers_as_claimed svc st query limit /\
  match snd (gather svc query limit st) with
  | Returned hits =>
      snd (searchDocuments svc query limit st) =
        Returned (join blank_line
                    (map content
                       (firstn (Z.to_nat limit)
                          (sort_desc (map_values (dedupe hits))))))
  | Thrown _ => snd (searchDocuments svc query limit st) = Returned ""
  end /\
  render 2 [row 1 "a" (Some (2 # 10)); row 2 "b" (Some (9 # 10));
            row 3 "c" (Some (5 # 10))]
    = ("b" ++ blank_line ++ "c")%string.
Proof.
  intros Hlimit. split; [|split; [|reflexivity]].
  - unfold search_answers_as_claimed. rewrite searchDocuments_run.
    destruct (gather svc query limit st) as [st' [hits|e]]; cbn [snd].
    + exists st', (render limit hits). split; [reflexivity|].
      now apply render_claimed.
    + now exists st', "".
  - rewrite searchDocuments_run.
    destruct (gather svc query limit st) as [st' [hits|e]]; cbn [snd];
      [|reflexivity].
    rewrite render_join. unfold uniqueResults. now rewrite slice0_nonneg.
Qed.

Lemma searchDocuments_ranked_output_witness :
  (0 <= 5)%Z /\
  search_answers_as_claimed SampleSearch.two_matches Sample.start "price" 5.
Proof.
  assert (Hlimit : (0 <= 5)%Z) by lia.
  split; [exact Hlimit|].
  exact (proj1 (searchDocuments_ranked_output SampleSearch.two_matches
                  Sample.start "price" 5 Hlimit)).
Defined.

(** As worded in the specification, for every limit, the property fails
    at limit -1: the store rejects the two searches that ask for -1 results,
    each of the two variations of "price" finds the passages "A" and "B",
    and the search returns "A", the content of one hit. *)
Lemma negative_limit_returns_a_hit :
  ~ search_answers_as_claimed SampleSearch.two_matches Sample.start
      "price" (-1).
Proof.
  intros (st' & out & Hrun & Hout).
  vm_compute in Hrun. injection Hrun as _ <-.
  destruct (snd (gather SampleSearch.two_matches "price" (-1) Sample.start))
    as [hits|e]; [|discriminate].
  destruct Hout as [[_ Hout]|(top & rest & _ & _ & Hlen & _)];
    [discriminate|lia].
Qed.

Example negative_limit_run :
  snd (searchDocuments SampleSearch.two_matches "price" (-1) Sample.start)
    = Returned "A".
Proof. vm_compute. reflexivity. Qed.

(** ** Failures during a search *)



(** C1 (as amended).  Errors that the store reports are isolated per
    strategy: when no embedding call fails, the search returns the rendering
    of the merged hits, and these are what the answer to the semantic search
    contributes, followed by what the answer to the keyword search
    contributes, followed by what the answer to each searched variation
    contributes, each computed from that answer alone.  For the keyword
    strategy and for a variation, an answer that carries an error or no data
    contributes nothing.  For the semantic strategy, an answer without data
    contributes nothing, and an answer with data contributes its rows
    whether or not it also carries an error (that error is only logged).
    The contributions of the other answers stay as they are.  A failing
    embedding call -- for the query or for one of the variations that are
    searched -- is not isolated: it ends the search, which then returns the
    empty string. *)
Theorem store_errors_are_isolated {World : Type} (svc : Services World)
    (st : State World) (query : string) (limit : Z) :
  exists delta,
    trace (fst (searchDocuments svc query limit st)) = trace st ++ delta /\
    match embed_failures delta with
    | [] =>
        snd (gather svc query limit st) = Returned (contributions delta) /\
        isolation_as_claimed svc st query limit
    | _ :: _ =>
        snd (searchDocuments svc query limit st) = Returned ""
    end /\
    (forall resp, failed resp -> keyword_hits resp = [] /\ variation_hits resp = []) /\
    (forall resp, data resp = None -> semantic_hits resp = []) /\
    (forall resp rows,
        data resp = Some rows ->
        semantic_hits resp = map (with_matchType Semantic) rows).
Proof.
  assert (Hrows : forall resp rows,
             data resp = Some rows ->
             semantic_hits resp = map (with_matchType Semantic) rows).
  { intros resp rows Hdata. unfold semantic_hits. now rewrite Hdata. }
  unfold isolation_as_claimed. rewrite searchDocuments_run.
  destruct (gather_calls svc query limit st) as (delta & Htrace & Hcalls).
  exists delta.
  destruct (gather svc query limit st) as [st' [hits|e]]; cbn [fst snd] in *.
  - split; [exact Htrace|].
    split; [|split; [apply failed_no_hits|split;
                       [apply no_data_no_semantic_hits|exact Hrows]]].
    apply search_calls_merge in Hcalls
      as (Hfail & semantic & answers & Hresp & Hhits).
    rewrite Hfail.
    assert (Hc : hits = contributions delta).
    { unfold contributions. rewrite Hresp. cbn. now rewrite app_nil_r. }
    split; [now rewrite Hc|]. exists delta. now rewrite <- Hc.
  - split; [exact Htrace|].
    split; [|split; [apply failed_no_hits|split;
                       [apply no_data_no_semantic_hits|exact Hrows]]].
    now rewrite (search_calls_thrown query limit delta e Hcalls).
Qed.

(** With a store whose nearest-neighbour search is down, for the query and
    for both pricing variations, the search for "price list" still answers
    with the passage the content search found. *)
Lemma store_errors_are_isolated_witness :
  failed Sample.store_down /\
  snd (gather SampleIsolation.neighbours_down "price list" 5 Sample.start)
    = Returned [as_keyword_hit (row 7 "Price list: 100 pesos" None)] /\
  isolation_as_claimed SampleIsolation.neighbours_down Sample.start
    "price list" 5 /\
  snd (searchDocuments SampleIsolation.neighbours_down "price list" 5
         Sample.start) = Returned "Price list: 100 pesos".
Proof.
  split; [left; discriminate|].
  destruct (store_errors_are_isolated SampleIsolation.neighbours_down
              Sample.start "price list" 5) as (delta & Htrace & Hrun & _).
  assert (Hdelta : delta
                   = trace (fst (searchDocuments SampleIsolation.neighbours_down
                                   "price list" 5 Sample.start)))
    by (rewrite Htrace; reflexivity).
  assert (Hnone : embed_failures delta = [])
    by (rewrite Hdelta; vm_compute; reflexivity).
  rewrite Hnone in Hrun. destruct Hrun as [Hgather Hisolated].
  split; [|split; [exact Hisolated|vm_compute; reflexivity]].
  rewrite Hgather, Hdelta. vm_compute. reflexivity.
Defined.

(** As worded in the specification, the isolation fails for a failing
    embedding call: with a provider that cannot embed the first pricing
    variation, the search for "price list" has received a keyword hit from
    the store and yet returns the empty string. *)
Lemma variation_embedding_failure_not_isolated :
  ~ isolation_as_claimed SampleSearch.variation_unembeddable Sample.start
      "price list" 5.
Proof.
  intros (delta & Htrace & Hout).
  vm_compute in Htrace. subst delta.
  vm_compute in Hout. discriminate.
Qed.

(** With the same collaborators, a variation that merely finds nothing
    leaves the keyword hit in the answer. *)
Example variation_without_results_is_isolated :
  snd (searchDocuments SampleSearch.variation_finds_nothing "price list" 5
         Sample.start) = Returned "Price list: 100 pesos".
Proof. vm_compute. reflexivity. Qed.

(** ** The requests of a search and the order of the merge *)

Section Requests.

Lemma search_calls_requests query limit delta o :
  search_calls query limit delta o ->
  Forall (fun r => fst r = (3 # 10)%Q) (match_requests delta) /\
  match match_requests delta with
  | [] => True
  | first :: later =>
      snd first = limit /\ Forall (fun r => snd r = 3%Z) later /\
      (length later <= 2)%nat
  end /\
  exists embedded more,
    firstn 2 (generateQuestionVariations query) = embedded ++ more /\
    embed_requests delta = (query, Query) :: map (fun v => (v, Query)) embedded.
Proof.
  inversion 1 as [e|embedding semantic kw_trace kw var_trace o' Hkw Hvar Hd Ho].
  - cbn. repeat split; [constructor|].
    now exists [], (firstn 2 (generateQuestionVariations query)).
  - apply variation_calls_facts in Hvar
      as (Hreq & _ & (embedded & more & Hsplit & Hemb & Hlen) & _).
    apply keyword_calls_facts in Hkw as (Hkreq & _ & Hkemb & _).
    unfold match_requests, embed_requests in *.
    cbn [flat_map app]. rewrite !flat_map_app, Hkreq, Hkemb, Hemb.
    cbn [app]. repeat split.
    + constructor; [reflexivity|].
      revert Hreq. apply List.Forall_impl. now intros r ->.
    + revert Hreq. apply List.Forall_impl. now intros r ->.
    + assert (length (firstn 2 (generateQuestionVariations query)) <= 2)%nat
        by apply firstn_le_length.
      rewrite Hsplit, length_app in *. lia.
    + now exists embedded, more.
Qed.






End Requests.

Section FirstCalls.

Context {World : Type} (svc : Services World).


End FirstCalls.



Section Representative.


Lemma map_get_values m k v : map_get m k = Some v -> In v (map_values m).
Proof.
  intros H. unfold map_values. apply in_map_iff. exists (k, v).
  split; [reflexivity|now apply map_get_In].
Qed.

End Representative.



(** ** Ingestion *)

Section Ingestion.

Context {World : Type} (svc : Services World).

Lemma first_attempt_eq metadata categoryId chunk embedding :
  (if truthy categoryId
   then set_category_id categoryId
          {| ins_content := pageContent chunk;
             ins_metadata := chunk_metadata chunk ∪ metadata;
             ins_embedding := embedding;
             ins_category_id := None |}
   else {| ins_content := pageContent chunk;
           ins_metadata := chunk_metadata chunk ∪ metadata;
           ins_embedding := embedding;
           ins_category_id := None |})
  = first_attempt metadata categoryId chunk embedding.
Proof. unfold first_attempt. now destruct (truthy categoryId). Qed.

(** What [store_chunk] does, call by call. *)
Lemma store_chunk_run metadata categoryId chunk st :
  store_chunk svc metadata categoryId chunk st =
  match embed_call svc (pageContent chunk) Passage (world st) with
  | (w1, inr e) =>
      (log (EvEmbed (pageContent chunk) Passage (inr e)) st w1, Thrown e)
  | (w1, inl embedding) =>
      let first := first_attempt metadata categoryId chunk embedding in
      let st1 := log (EvEmbed (pageContent chunk) Passage (inl embedding)) st w1 in
      match insert_call svc first w1 with
      | (w2, error) =>
          let st2 := log (EvInsert first error) st1 w2 in
          if mentions_category_id error then
            match insert_call svc (set_category_id None first) w2 with
            | (w3, retry_error) =>
                (log (EvInsert (set_category_id None first) retry_error) st2 w3,
                 match retry_error with
                 | Some e => Thrown e
                 | None => Returned tt
                 end)
            end
          else
            (st2, match error with
                  | Some e => Thrown e
                  | None => Returned tt
                  end)
      end
  end.
Proof.
  unfold store_chunk. rewrite bind_run. unfold getEmbedding.
  destruct (embed_call svc (pageContent chunk) Passage (world st))
    as [w1 [embedding|e]]; [|reflexivity].
  rewrite first_attempt_eq. rewrite bind_run. unfold insert at 1.
  cbn [world log].
  destruct (insert_call svc (first_attempt metadata categoryId chunk embedding) w1)
    as [w2 error].
  cbv zeta. rewrite bind_run.
  destruct (mentions_category_id error).
  - unfold insert. cbn [world log].
    destruct (insert_call svc
                (set_category_id None
                   (first_attempt metadata categoryId chunk embedding)) w2)
      as [w3 [e|]]; reflexivity.
  - unfold ret. destruct error; reflexivity.
Qed.

Lemma store_chunk_calls metadata categoryId chunk st :
  exists delta,
    trace (fst (store_chunk svc metadata categoryId chunk st)) = trace st ++ delta /\
    chunk_calls metadata categoryId chunk delta
      (snd (store_chunk svc metadata categoryId chunk st)).
Proof.
  rewrite store_chunk_run.
  destruct (embed_call svc (pageContent chunk) Passage (world st))
    as [w1 [embedding|e]].
  2:{ eexists. split; [reflexivity|]. constructor. }
  cbv zeta.
  destruct (insert_call svc (first_attempt metadata categoryId chunk embedding) w1)
    as [w2 error].
  destruct (mentions_category_id error) eqn:Emention.
  - destruct (insert_call svc
                (set_category_id None
                   (first_attempt metadata categoryId chunk embedding)) w2)
      as [w3 retry_error].
    destruct error as [e|]; [|discriminate].
    eexists. split; [cbn; rewrite <- !app_assoc; reflexivity|].
    cbn [snd].
    replace (match retry_error with Some e0 => Thrown e0 | None => Returned tt end)
      with (match retry_error with None => Returned tt | Some e' => @Thrown unit e' end)
      by now destruct retry_error.
    now constructor.
  - destruct error as [e|].
    + eexists. split; [cbn; rewrite <- !app_assoc; reflexivity|].
      now constructor.
    + eexists. split; [cbn; rewrite <- !app_assoc; reflexivity|].
      constructor.
Qed.

Lemma for_of_calls metadata categoryId chunks : forall st,
  exists delta,
    trace (fst (for_of chunks (store_chunk svc metadata categoryId) st))
      = trace st ++ delta /\
    document_calls metadata categoryId chunks delta
      (snd (for_of chunks (store_chunk svc metadata categoryId) st)).
Proof.
  induction chunks as [|chunk rest IH]; intros st.
  - exists []. cbn. rewrite app_nil_r. split; [reflexivity|constructor].
  - cbn [for_of]. rewrite bind_run.
    destruct (store_chunk_calls metadata categoryId chunk st)
      as (delta & Htrace & Hcalls).
    destruct (store_chunk svc metadata categoryId chunk st) as [st1 [[]|e]];
      cbn [fst snd] in *.
    + destruct (IH st1) as (delta' & Htrace' & Hcalls').
      exists (delta ++ delta'). split.
      * now rewrite Htrace', Htrace, app_assoc.
      * now constructor.
    + exists delta. split; [exact Htrace|]. now constructor.
Qed.

Lemma addDocument_run content metadata st :
  addDocument svc content metadata st =
  match for_of (createDocuments svc content)
          (store_chunk svc metadata (metadata !! "categoryId")) st with
  | (st', Returned _) => (st', Returned true)
  | (st', Thrown _) => (st', Returned false)
  end.
Proof.
  unfold addDocument, try_catch. rewrite bind_run.
  now destruct (for_of (createDocuments svc content)
                  (store_chunk svc metadata (metadata !! "categoryId")) st)
    as [st' [[]|e]].
Qed.

End Ingestion.

Section IngestionProtocol.

Lemma chunk_calls_facts metadata categoryId chunk delta o :
  chunk_calls metadata categoryId chunk delta o ->
  embed_requests delta = [(pageContent chunk, Passage)] /\
  stored_contents delta =
    match o with
    | Returned _ => [pageContent chunk]
    | Thrown _ => []
    end.
Proof.
  intros [e|embedding|embedding e He|embedding e [e'|] He]; cbn; now split.
Qed.

Lemma document_calls_facts metadata categoryId chunks delta o :
  document_calls metadata categoryId chunks delta o ->
  exists stored pending,
    chunks = stored ++ pending /\
    stored_contents delta = map pageContent stored /\
    embed_requests delta =
      map (fun c => (pageContent c, Passage)) (stored ++ firstn 1 pending) /\
    match o with
    | Returned _ => pending = []
    | Thrown _ => pending <> []
    end.
Proof.
  induction 1 as [|chunk rest tr e Hchunk|chunk rest tr tr' o Hchunk Hrest IH].
  - now exists [], [].
  - apply chunk_calls_facts in Hchunk as [Hemb Hstored].
    exists [], (chunk :: rest). cbn. now rewrite Hemb, Hstored.
  - apply chunk_calls_facts in Hchunk as [Hemb Hstored].
    destruct IH as (stored & pending & -> & Hst & Hem & Ho).
    exists (chunk :: stored), pending.
    unfold stored_contents, embed_requests in *.
    rewrite !flat_map_app, Hemb, Hstored, Hst, Hem. now cbn.
Qed.



End IngestionProtocol.

Section Abort.

Context {World : Type} (svc : Services World).



End Abort.







(** ** Further facts about the pure helpers *)

Section Normalisation.

Lemma lower_char_idem c : lower_char (lower_char c) = lower_char c.
Proof. destruct c as [[] [] [] [] [] [] [] []]; reflexivity. Qed.

Lemma toLowerCase_idem s : toLowerCase (toLowerCase s) = toLowerCase s.
Proof.
  induction s as [|c s IH]; simpl; [reflexivity|].
  now rewrite lower_char_idem, IH.
Qed.

Lemma term_char_not_syntax c : is_term_char c = true -> is_filter_syntax c = false.
Proof. destruct c as [[] [] [] [] [] [] [] []]; cbv; congruence. Qed.




End Normalisation.

Lemma punctuation_not_kept c :
  is_punctuation c && negb (is_word c) = true ->
  is_word (lower_char c) || is_space (lower_char c) = false.
Proof. destruct c as [[] [] [] [] [] [] [] []]; cbv; congruence. Qed.

Lemma strip_punctuation_normalised s :
  strip_non_word (toLowerCase (strip_punctuation s))
  = strip_non_word (toLowerCase s).
Proof.
  induction s as [|c s IH]; simpl; [reflexivity|].
  destruct (is_punctuation c && negb (is_word c)) eqn:E; simpl.
  - now rewrite (punctuation_not_kept c E).
  - now rewrite IH.
Qed.

(** X1.  [extractKeyTerms] does not see letter case or ASCII punctuation:
    the query, its lower-cased form and its form without the ASCII
    punctuation marks other than the underscore (which is a word character
    and stays) all give the same key terms. *)
Theorem extractKeyTerms_normal_form (query : string) :
  extractKeyTerms (toLowerCase query) = extractKeyTerms query /\
  extractKeyTerms (strip_punctuation query) = extractKeyTerms query.
Proof.
  unfold extractKeyTerms. split.
  - now rewrite toLowerCase_idem.
  - now rewrite strip_punctuation_normalised.
Qed.

Section OrFilter.




End OrFilter.


(** ** Further facts about the question variations *)

Section Substrings.

Lemma toLowerCase_append a b :
  toLowerCase (a ++ b) = (toLowerCase a ++ toLowerCase b)%string.
Proof.
  induction a as [|c a IH]; simpl; [reflexivity|]. now rewrite IH.
Qed.

Lemma prefix_of_append_r p s b :
  prefix_of p s = true -> prefix_of p (s ++ b) = true.
Proof.
  revert s. induction p as [|x p IH]; intros [|y s]; simpl; try easy.
  intros H. apply andb_prop in H as [-> H]. simpl. now apply IH.
Qed.

Lemma includes_append_r s b p :
  includes s p = true -> includes (s ++ b) p = true.
Proof.
  induction s as [|c s IH]; simpl; intros H.
  - rewrite orb_false_r in H. destruct p as [|x p]; [|discriminate].
    now destruct b.
  - apply orb_prop in H as [H|H].
    + apply orb_true_intro. left.
      exact (prefix_of_append_r p (String c s) b H).
    + rewrite (IH H). apply orb_true_r.
Qed.

Lemma includes_append_l a s p :
  includes s p = true -> includes (a ++ s) p = true.
Proof.
  intros H. induction a as [|c a IH]; simpl; [exact H|].
  rewrite IH. apply orb_true_r.
Qed.

Lemma triggered_in_context a s b t :
  triggered (toLowerCase s) t = true ->
  triggered (toLowerCase (a ++ s ++ b)) t = true.
Proof.
  unfold triggered. rewrite !existsb_exists.
  intros (p & Hp & Hinc). exists p. split; [exact Hp|].
  rewrite !toLowerCase_append.
  now apply includes_append_l, includes_append_r.
Qed.

End Substrings.

(** X3.  [generateQuestionVariations] ignores letter case, and whatever the
    query, it returns at most ten phrasings, none of them twice. *)
Theorem generateQuestionVariations_bounded (query : string) :
  generateQuestionVariations (toLowerCase query) = generateQuestionVariations query /\
  (length (generateQuestionVariations query) <= 10)%nat /\
  List.NoDup (generateQuestionVariations query).
Proof.
  split.
  - unfold generateQuestionVariations. now rewrite toLowerCase_idem.
  - rewrite generateQuestionVariations_by_topic.
    unfold variations_by_topic, topics. cbn [List.filter].
    destruct (triggered (toLowerCase query) pricing),
             (triggered (toLowerCase query) product),
             (triggered (toLowerCase query) delivery),
             (triggered (toLowerCase query) payment);
      (split; [cbn; lia|]);
      cbn; repeat (constructor; [cbn; intuition discriminate|]); constructor.
Qed.

(** X4.  The two variations that [searchDocuments] takes are always the
    first two phrasings of the first topic the query triggers, in the order
    pricing, product, delivery, payment: the third phrasing of a topic and
    the phrasings of a topic triggered later are never searched. *)
Theorem searched_variations_first_topic (query : string) :
  firstn 2 (generateQuestionVariations query) =
  match first_triggered query with
  | Some t => firstn 2 (canned t)
  | None => []
  end.
Proof.
  rewrite generateQuestionVariations_by_topic.
  unfold variations_by_topic, first_triggered, topics.
  cbn [List.filter List.find].
  destruct (triggered (toLowerCase query) pricing),
           (triggered (toLowerCase query) product),
           (triggered (toLowerCase query) delivery),
           (triggered (toLowerCase query) payment); reflexivity.
Qed.

(** X5.  Topics are triggered by substrings, so putting text before or
    after a query never takes a variation away: every variation of a query
    is a variation of every text that contains it. *)
Theorem generateQuestionVariations_in_context (before query after phrase : string) :
  In phrase (generateQuestionVariations query) ->
  In phrase (generateQuestionVariations (before ++ query ++ after)).
Proof.
  rewrite !generateQuestionVariations_by_topic. unfold variations_by_topic.
  rewrite !in_flat_map. intros (t & Ht & Hphrase).
  exists t. split; [|exact Hphrase].
  apply filter_In in Ht as [Hin Htrig]. apply filter_In. split; [exact Hin|].
  now apply triggered_in_context.
Qed.

Lemma generateQuestionVariations_in_context_witness :
  In "How can I pay?" (generateQuestionVariations "gcash") /\
  In "How can I pay?" (generateQuestionVariations "May GCash po ba kayo?").
Proof.
  assert (H : In "How can I pay?" (generateQuestionVariations "gcash"))
    by (vm_compute; tauto).
  split; [exact H|].
  assert (Hlower : generateQuestionVariations "May GCash po ba kayo?"
                   = generateQuestionVariations ("may " ++ "gcash" ++ " po ba kayo?"))
    by reflexivity.
  rewrite Hlower.
  exact (generateQuestionVariations_in_context "may " "gcash" " po ba kayo?"
           "How can I pay?" H).
Defined.

(** ** Further facts about merging and ranking *)

Section Order.

Local Open Scope Q_scope.

Lemma dedupe_step_keys m d :
  map fst (dedupe_step m d) = set_add (map fst m) (content d).
Proof.
  unfold dedupe_step, set_add.
  destruct (map_get m (content d)) as [existing|] eqn:Eget.
  - assert (Hin : In (content d) (map fst m))
      by now apply (map_get_is_Some_keys m _ existing).
    assert (Hmem : existsb (String.eqb (content d)) (map fst m) = true)
      by now apply mem_In.
    rewrite Hmem.
    destruct (Qgtb (sim d) (sim existing)); [|reflexivity].
    now apply map_set_keys_present.
  - rewrite (map_set_absent _ _ _ Eget), map_app.
    destruct (existsb (String.eqb (content d)) (map fst m)) eqn:Hmem;
      [|reflexivity].
    apply (mem_In (content d)) in Hmem. apply map_get_None in Eget.
    contradiction.
Qed.

Lemma dedupe_keys l : map fst (dedupe l) = set_of_array (map content l).
Proof.
  unfold dedupe, set_of_array.
  change (@nil string) with (map fst (@nil (string * Doc))).
  generalize (@nil (string * Doc)) as m. induction l as [|d l IH]; intros m.
  - reflexivity.
  - cbn [fold_left map]. rewrite IH. now rewrite dedupe_step_keys.
Qed.

Lemma dedupe_values_contents l :
  map content (map_values (dedupe l)) = map fst (dedupe l).
Proof.
  destruct (dedupe_inv l) as (Hnd & Hget & _).
  unfold map_values. rewrite map_map. apply map_ext_in.
  intros [k v] Hin. cbn.
  now destruct (Hget _ _ (In_map_get _ _ _ Hnd Hin)) as [-> _].
Qed.

Lemma dedupe_distinct l :
  List.NoDup (map content l) -> dedupe l = map (fun d => (content d, d)) l.
Proof.
  induction l as [|d l IH] using rev_ind; [reflexivity|].
  rewrite map_app. intros Hnd.
  assert (Hl : List.NoDup (map content l)) by now apply NoDup_app_remove_r in Hnd.
  unfold dedupe. rewrite fold_left_app. fold (dedupe l). rewrite (IH Hl).
  cbn [fold_left]. unfold dedupe_step.
  assert (Hnone : map_get (map (fun d0 => (content d0, d0)) l) (content d) = None).
  { apply map_get_None. rewrite map_map. cbn [fst].
    intros Hin. cbn [map] in Hnd. apply NoDup_remove_2 in Hnd.
    apply Hnd. rewrite app_nil_r. exact Hin. }
  rewrite Hnone, (map_set_absent _ _ _ Hnone), map_app. reflexivity.
Qed.

End Order.

Section Stability.

Local Open Scope Q_scope.

Lemma insert_desc_class q d l :
  of_similarity q (insert_desc d l) = of_similarity q (d :: l).
Proof.
  unfold of_similarity. induction l as [|x l IH]; [reflexivity|].
  cbn [insert_desc]. destruct (Qgtb (sim x) (sim d)) eqn:E; [|reflexivity].
  apply Qgtb_true in E. cbn [List.filter] in *. rewrite IH.
  destruct (Qeq_bool (sim x) q) eqn:Ex, (Qeq_bool (sim d) q) eqn:Ed;
    try reflexivity.
  apply Qeq_bool_iff in Ex, Ed. exfalso.
  apply (Qlt_irrefl (sim d)). rewrite Ed at 2. now rewrite <- Ex.
Qed.

Lemma sort_desc_class q l : of_similarity q (sort_desc l) = of_similarity q l.
Proof.
  induction l as [|d l IH]; [reflexivity|].
  cbn [sort_desc]. rewrite insert_desc_class. unfold of_similarity in *.
  cbn [List.filter]. now rewrite IH.
Qed.

Lemma sort_desc_ranked_id l : ranked l -> sort_desc l = l.
Proof.
  unfold ranked. induction 1 as [|d l Hl IH Hd]; [reflexivity|].
  cbn [sort_desc]. rewrite IH. destruct l as [|x l]; [reflexivity|].
  cbn [insert_desc]. inversion Hd as [|? ? Hx _]; subst.
  apply Qgtb_false in Hx. now rewrite Hx.
Qed.

Lemma NoDup_map_firstn {A B} (f : A -> B) (n : nat) (l : list A) :
  List.NoDup (map f l) -> List.NoDup (map f (firstn n l)).
Proof.
  revert n. induction l as [|x l IH]; intros [|n] H; cbn; try constructor.
  - inversion H as [|? ? Hx Hl]; subst. intros Hin. apply Hx.
    apply in_map_iff in Hin as (y & Hy & Hin). apply in_map_iff.
    exists y. split; [exact Hy|]. revert Hin. apply firstn_In.
  - inversion H; subst. now apply IH.
Qed.

End Stability.

(** X6.  The deduplicated hits stand in the order in which their contents
    first appeared among the gathered hits, also when a later hit of higher
    similarity has replaced the first one. *)
Theorem dedupe_first_appearance_order (allResults : list Doc) :
  map content (map_values (dedupe allResults))
    = first_occurrences (map content allResults).
Proof.
  rewrite dedupe_values_contents.
  rewrite dedupe_keys.
  apply set_of_array_first_occurrences.
Qed.

(** X7.  Deduplication leaves hits of pairwise distinct contents as they
    are, so deduplicating twice is the same as deduplicating once. *)
Theorem dedupe_idempotent (allResults : list Doc) :
  (List.NoDup (map content allResults) ->
   map_values (dedupe allResults) = allResults) /\
  map_values (dedupe (map_values (dedupe allResults)))
    = map_values (dedupe allResults).
Proof.
  assert (Hid : forall l, List.NoDup (map content l) -> map_values (dedupe l) = l).
  { intros l Hnd. rewrite (dedupe_distinct l Hnd). unfold map_values.
    rewrite map_map. cbn [snd]. apply map_id. }
  split; [apply Hid|]. apply Hid, dedupe_contents_NoDup.
Qed.

Lemma dedupe_idempotent_witness :
  List.NoDup (map content [row 1 "A" None; row 2 "B" None]) /\
  map_values (dedupe [row 1 "A" None; row 2 "B" None])
    = [row 1 "A" None; row 2 "B" None].
Proof.
  assert (H : List.NoDup (map content [row 1 "A" None; row 2 "B" None])).
  { cbn. repeat (constructor; [cbn; intuition discriminate|]). constructor. }
  split; [exact H|].
  exact (proj1 (dedupe_idempotent [row 1 "A" None; row 2 "B" None]) H).
Defined.

(** X8.  The sort is stable: hits of equal similarity keep the order they
    had before the sort, and a sequence that is already ranked is left as
    it is. *)
Theorem sort_desc_stable (docs : list Doc) :
  (forall q, of_similarity q (sort_desc docs) = of_similarity q docs) /\
  (ranked docs -> sort_desc docs = docs).
Proof.
  split; [intros q; apply sort_desc_class|apply sort_desc_ranked_id].
Qed.

Lemma sort_desc_stable_witness :
  ranked [row 1 "A" (Some (1 # 2)); row 2 "B" (Some (1 # 2))] /\
  sort_desc [row 1 "A" (Some (1 # 2)); row 2 "B" (Some (1 # 2))]
    = [row 1 "A" (Some (1 # 2)); row 2 "B" (Some (1 # 2))].
Proof.
  assert (H : ranked [row 1 "A" (Some (1 # 2)); row 2 "B" (Some (1 # 2))]).
  { unfold ranked. repeat constructor. cbn. unfold Qle. simpl. lia. }
  split; [exact H|].
  exact (proj2 (sort_desc_stable _) H).
Defined.

(** X9.  How many hits a search keeps: with [n] distinct contents gathered,
    a limit that is not negative keeps the [limit] best of them, or all [n]
    if there are fewer; a negative limit [-k] keeps all but the last [k] of
    the ranking.  Between two limits that are not negative, the larger one
    only adds hits after those of the smaller one. *)
Theorem uniqueResults_length (limit : Z) (hits : list Doc) :
  length (uniqueResults limit hits) =
    (if (0 <=? limit)%Z
     then Nat.min (Z.to_nat limit) (length (dedupe hits))
     else length (dedupe hits) - Z.to_nat (- limit))%nat /\
  (forall limit', (0 <= limit <= limit')%Z ->
     uniqueResults limit hits
       = firstn (Z.to_nat limit) (uniqueResults limit' hits)).
Proof.
  assert (Hlen : length (sort_desc (map_values (dedupe hits)))
                 = length (dedupe hits)).
  { rewrite (Permutation_length (sort_desc_perm _)). unfold map_values.
    apply length_map. }
  split.
  - unfold uniqueResults, slice0. destruct (0 <=? limit)%Z.
    + now rewrite length_firstn, Hlen.
    + rewrite length_firstn, Hlen. lia.
  - intros limit' [H0 Hle]. unfold uniqueResults.
    rewrite !slice0_nonneg by lia. rewrite firstn_firstn.
    f_equal. lia.
Qed.

Lemma uniqueResults_length_witness :
  (0 <= 1 <= 2)%Z /\
  uniqueResults 1 [row 1 "A" (Some (1 # 2)); row 2 "B" (Some (9 # 10))]
    = firstn 1 (uniqueResults 2 [row 1 "A" (Some (1 # 2)); row 2 "B" (Some (9 # 10))]).
Proof.
  assert (H : (0 <= 1 <= 2)%Z) by lia.
  split; [exact H|].
  exact (proj2 (uniqueResults_length 1
                  [row 1 "A" (Some (1 # 2)); row 2 "B" (Some (9 # 10))]) 2%Z H).
Defined.

Lemma uniqueResults_In limit hits d :
  In d (uniqueResults limit hits) -> In d hits.
Proof.
  intros Hd.
  assert (Hin : In d (sort_desc (map_values (dedupe hits)))).
  { unfold uniqueResults, slice0 in Hd.
    destruct (0 <=? limit)%Z; revert Hd; apply firstn_In. }
  apply (Permutation_in _ (sort_desc_perm _)) in Hin.
  destruct (dedupe_first_best _ _ Hin) as (before & after & -> & _).
  apply in_or_app. right. now left.
Qed.

(** X10.  A search never returns the same passage twice: the hits it keeps
    have pairwise distinct contents, whatever their ids, and each of them
    is one of the gathered hits. *)
Theorem uniqueResults_distinct (limit : Z) (hits : list Doc) :
  List.NoDup (map content (uniqueResults limit hits)) /\
  (forall d, In d (uniqueResults limit hits) -> In d hits).
Proof.
  assert (Hperm : Permutation (sort_desc (map_values (dedupe hits)))
                    (map_values (dedupe hits))) by apply sort_desc_perm.
  split.
  - unfold uniqueResults, slice0.
    destruct (0 <=? limit)%Z; apply NoDup_map_firstn;
      apply (Permutation_NoDup (Permutation_map content (Permutation_sym Hperm)));
      apply dedupe_contents_NoDup.
  - apply uniqueResults_In.
Qed.

Lemma uniqueResults_distinct_witness :
  In (row 2 "B" None) (uniqueResults 5 [row 1 "A" None; row 2 "B" None]) /\
  In (row 2 "B" None) [row 1 "A" None; row 2 "B" None].
Proof.
  assert (H : In (row 2 "B" None)
                (uniqueResults 5 [row 1 "A" None; row 2 "B" None]))
    by (vm_compute; tauto).
  split; [exact H|].
  exact (proj2 (uniqueResults_distinct 5 [row 1 "A" None; row 2 "B" None]) _ H).
Defined.

(** ** Further facts about the calls of a search *)

Section TraceLogic.

Context {World : Type} (svc : Services World).

Lemma extends_ret {A} (a : A) : extends_trace svc (ret a : M World A).
Proof. intros st. exists []. cbn. now rewrite app_nil_r. Qed.

Lemma extends_throw {A} e : extends_trace svc (throw e : M World A).
Proof. intros st. exists []. cbn. now rewrite app_nil_r. Qed.

Lemma extends_bind {A B} (m : M World A) (k : A -> M World B) :
  extends_trace svc m -> (forall a, extends_trace svc (k a)) ->
  extends_trace svc (bind m k).
Proof.
  intros Hm Hk st. rewrite bind_run.
  destruct (Hm st) as (d1 & Ht1 & Ha1).
  destruct (m st) as [st1 [a|e]]; cbn [fst] in *.
  - destruct (Hk a st1) as (d2 & Ht2 & Ha2).
    exists (d1 ++ d2). split.
    + now rewrite Ht2, Ht1, app_assoc.
    + apply Forall_app. now split.
  - now exists d1.
Qed.

Lemma extends_try_catch {A} (body : M World A) handler :
  extends_trace svc body -> (forall e, extends_trace svc (handler e)) ->
  extends_trace svc (try_catch body handler).
Proof.
  intros Hm Hk st. unfold try_catch.
  destruct (Hm st) as (d1 & Ht1 & Ha1).
  destruct (body st) as [st1 [a|e]]; cbn [fst] in *.
  - now exists d1.
  - destruct (Hk e st1) as (d2 & Ht2 & Ha2).
    exists (d1 ++ d2). split.
    + now rewrite Ht2, Ht1, app_assoc.
    + apply Forall_app. now split.
Qed.

Lemma extends_getEmbedding text ty : extends_trace svc (getEmbedding svc text ty).
Proof.
  intros st. unfold getEmbedding.
  destruct (embed_call svc text ty (world st)) as [w outcome] eqn:E.
  exists [EvEmbed text ty outcome]. split; [reflexivity|].
  constructor; [|constructor]. exists (world st). now rewrite E.
Qed.

Lemma extends_insert r : extends_trace svc (insert svc r).
Proof.
  intros st. unfold insert.
  destruct (insert_call svc r (world st)) as [w err] eqn:E.
  exists [EvInsert r err]. split; [reflexivity|].
  constructor; [|constructor]. exists (world st). now rewrite E.
Qed.

Lemma extends_rpc emb threshold count :
  extends_trace svc (rpc_match_documents svc emb threshold count).
Proof.
  intros st. unfold rpc_match_documents.
  destruct (match_documents svc emb threshold count (world st)) as [w resp] eqn:E.
  exists [EvMatchDocuments emb threshold count resp]. split; [reflexivity|].
  constructor; [|constructor]. exists (world st). now rewrite E.
Qed.

Lemma extends_select or_filter count :
  extends_trace svc (select_or svc or_filter count).
Proof.
  intros st. unfold select_or.
  destruct (select_or_ilike svc or_filter count (world st)) as [w resp] eqn:E.
  exists [EvSelect or_filter count resp]. split; [reflexivity|].
  constructor; [|constructor]. exists (world st). now rewrite E.
Qed.

Lemma extends_search_variations variations : forall qaResults,
  extends_trace svc (search_variations svc variations qaResults).
Proof.
  induction variations as [|v rest IH]; intros qaResults; cbn [search_variations].
  - apply extends_ret.
  - apply extends_bind; [apply extends_getEmbedding|]. intros emb.
    apply extends_bind; [apply extends_rpc|]. intros resp. apply IH.
Qed.

Lemma extends_gather query limit : extends_trace svc (gather svc query limit).
Proof.
  unfold gather.
  apply extends_bind; [apply extends_getEmbedding|]. intros emb.
  apply extends_bind; [apply extends_rpc|]. intros semantic.
  apply extends_bind.
  - destruct (0 <? length (extractKeyTerms query))%nat; [|apply extends_ret].
    apply extends_bind; [apply extends_select|]. intros resp. apply extends_ret.
  - intros kw. apply extends_bind; [apply extends_search_variations|].
    intros qa. apply extends_ret.
Qed.

Lemma extends_store_chunk metadata categoryId chunk :
  extends_trace svc (store_chunk svc metadata categoryId chunk).
Proof.
  unfold store_chunk.
  apply extends_bind; [apply extends_getEmbedding|]. intros emb.
  apply extends_bind; [apply extends_insert|]. intros error.
  apply extends_bind.
  - destruct (mentions_category_id error);
      [apply extends_insert|apply extends_ret].
  - intros [e|]; [apply extends_throw|apply extends_ret].
Qed.

Lemma extends_for_of {A} (xs : list A) (body : A -> M World unit) :
  (forall x, extends_trace svc (body x)) -> extends_trace svc (for_of xs body).
Proof.
  intros Hbody. induction xs as [|x xs IH]; cbn [for_of].
  - apply extends_ret.
  - apply extends_bind; [apply Hbody|]. intros _. exact IH.
Qed.

End TraceLogic.

Section SearchShape.

Lemma variation_calls_shape vs delta o :
  variation_calls vs delta o ->
  insert_requests delta = [] /\ select_requests delta = [] /\
  (length delta <= 2 * length vs)%nat /\
  Forall (fun p => fst p = (3 # 10)%Q) (match_answers delta) /\
  match_responses delta = map snd (match_answers delta).
Proof.
  unfold insert_requests, select_requests, match_answers, match_responses.
  induction 1 as [|v rest e|v rest embedding resp tr o Hcalls IH].
  - cbn. repeat split; constructor.
  - cbn. repeat split; [lia|constructor].
  - destruct IH as (Hins & Hsel & Hlen & Hfloor & Hresp).
    cbn [flat_map app length map]. repeat split.
    + exact Hins.
    + exact Hsel.
    + lia.
    + now constructor.
    + now rewrite Hresp.
Qed.

Lemma keyword_calls_shape query limit kw_trace keywordResults :
  keyword_calls query limit kw_trace keywordResults ->
  insert_requests kw_trace = [] /\ match_answers kw_trace = [] /\
  (length kw_trace <= 1)%nat /\
  select_requests kw_trace =
    (if (0 <? length (extractKeyTerms query))%nat
     then [(or_filter_of (extractKeyTerms query), limit)] else []).
Proof.
  intros [Hnone|resp Hsome].
  - rewrite Hnone. cbn. repeat split. lia.
  - destruct (extractKeyTerms query) as [|t ts]; [contradiction|].
    cbn. repeat split. lia.
Qed.

Lemma firstn_2_length {A} (l : list A) : (length (firstn 2 l) <= 2)%nat.
Proof. apply firstn_le_length. Qed.

End SearchShape.

(** X11.  A search only reads: it never asks the store to insert a row.
    It makes at most seven calls -- at most three embedding calls, three
    nearest-neighbour searches and one content search. *)
Theorem searchDocuments_call_budget {World : Type} (svc : Services World)
    (st : State World) (query : string) (limit : Z) :
  exists delta,
    trace (fst (searchDocuments svc query limit st)) = trace st ++ delta /\
    insert_requests delta = [] /\
    (length (embed_requests delta) <= 3)%nat /\
    (length (match_requests delta) <= 3)%nat /\
    (length (select_requests delta) <= 1)%nat /\
    (length delta <= 7)%nat.
Proof.
  rewrite searchDocuments_run.
  destruct (gather_calls svc query limit st) as (delta & Htrace & Hcalls).
  exists delta. split.
  { now destruct (gather svc query limit st) as [st' [hits|e]]. }
  clear Htrace.
  inversion Hcalls as [e|emb semantic kw_trace kw var_trace o Hkw Hvar Hd Ho].
  - cbn. repeat split; lia.
  - subst delta.
    pose proof (firstn_2_length (generateQuestionVariations query)) as H2.
    pose proof (variation_calls_facts _ _ _ Hvar)
      as (_ & _ & (embedded & more & Hsplit & Hemb & Hlen) & _).
    pose proof (variation_calls_shape _ _ _ Hvar) as (Hins & Hsel & Hdl & _).
    pose proof (keyword_calls_facts _ _ _ _ Hkw) as (Hkreq & _ & Hkemb & _).
    pose proof (keyword_calls_shape _ _ _ _ Hkw) as (Hkins & _ & Hkl & Hksel).
    assert (Hembedded : (length embedded <= 2)%nat).
    { rewrite Hsplit, length_app in H2. lia. }
    unfold insert_requests, embed_requests, match_requests, select_requests in *.
    cbn [flat_map app length]. rewrite !flat_map_app, !length_app.
    rewrite Hins, Hkins, Hkreq, Hkemb, Hemb, Hsel, Hksel, length_map.
    cbn [app length].
    destruct (0 <? length (extractKeyTerms query))%nat; cbn [length app];
      repeat split; lia.
Qed.

(** X12.  When the query cannot be embedded the search stops there: the
    failed embedding is its only call and the store is not asked at all.
    Otherwise the content search is asked exactly when the query has key
    terms, once, with the filter of these terms and the limit; a query made
    of stop words and short words only gets no keyword search. *)
Theorem keyword_search_issued {World : Type} (svc : Services World)
    (st : State World) (query : string) (limit : Z) :
  exists delta,
    trace (fst (searchDocuments svc query limit st)) = trace st ++ delta /\
    match delta with
    | EvEmbed _ _ (inr _) :: rest => rest = []
    | _ =>
        select_requests delta =
          (if (0 <? length (extractKeyTerms query))%nat
           then [(or_filter_of (extractKeyTerms query), limit)] else [])
    end.
Proof.
  rewrite searchDocuments_run.
  destruct (gather_calls svc query limit st) as (delta & Htrace & Hcalls).
  exists delta. split.
  { now destruct (gather svc query limit st) as [st' [hits|e]]. }
  clear Htrace.
  inversion Hcalls as [e|emb semantic kw_trace kw var_trace o Hkw Hvar Hd Ho].
  - reflexivity.
  - subst delta.
    pose proof (variation_calls_shape _ _ _ Hvar) as (_ & Hsel & _).
    pose proof (keyword_calls_shape _ _ _ _ Hkw) as (_ & _ & _ & Hksel).
    unfold select_requests in *. cbn [flat_map app].
    now rewrite flat_map_app, Hsel, Hksel, app_nil_r.
Qed.

Section Floor.

Context {World : Type} (svc : Services World).

Lemma match_responses_answers tr : match_responses tr = map snd (match_answers tr).
Proof.
  unfold match_responses, match_answers.
  induction tr as [|[] tr IH]; cbn; now rewrite ?IH.
Qed.

Lemma match_requests_answers tr :
  map fst (match_requests tr) = map fst (match_answers tr).
Proof.
  unfold match_requests, match_answers.
  induction tr as [|[] tr IH]; cbn; now rewrite ?IH.
Qed.

Lemma match_answers_answered tr :
  Forall (answered_by svc) tr ->
  Forall (fun p => exists emb count w,
              snd (match_documents svc emb (fst p) count w) = snd p)
    (match_answers tr).
Proof.
  unfold match_answers.
  induction 1 as [|ev tr Hev _ IH]; [constructor|].
  destruct ev; cbn; try exact IH.
  constructor; [|exact IH]. destruct Hev as [w Hw]. cbn. eauto.
Qed.

Lemma sim_with_matchType t d : sim (with_matchType t d) = sim d.
Proof. reflexivity. Qed.

(** Where the similarity of a merged hit comes from. *)
Lemma search_calls_similarities query limit delta hits :
  search_calls query limit delta (Returned hits) ->
  forall d, In d hits ->
    similarity d = Some (1 # 2)%Q \/
    exists p rows d0,
      In p (match_answers delta) /\ fst p = (3 # 10)%Q /\
      data (snd p) = Some rows /\ In d0 rows /\ sim d = sim d0.
Proof.
  intros Hcalls d Hd.
  pose proof (search_calls_requests _ _ _ _ Hcalls) as (Hthr & _).
  assert (Hfloor : forall p, In p (match_answers delta) -> fst p = (3 # 10)%Q).
  { intros p Hp. apply (in_map fst) in Hp.
    rewrite <- match_requests_answers in Hp.
    apply in_map_iff in Hp as (r & <- & Hr).
    rewrite List.Forall_forall in Hthr. now apply Hthr. }
  apply search_calls_merge in Hcalls as (_ & semantic & answers & Hresp & ->).
  rewrite match_responses_answers in Hresp.
  assert (Hfrom : forall resp, In resp (semantic :: answers) ->
                    exists p, In p (match_answers delta) /\ snd p = resp).
  { intros resp Hin. rewrite <- Hresp in Hin.
    apply in_map_iff in Hin as (p & <- & Hp). now exists p. }
  apply in_app_or in Hd as [Hd|Hd]; [|apply in_app_or in Hd as [Hd|Hd]].
  - right. unfold semantic_hits in Hd.
    destruct (Hfrom semantic (or_introl eq_refl)) as (p & Hp & <-).
    destruct (data (snd p)) as [rows|] eqn:Edata; [|destruct Hd].
    apply in_map_iff in Hd as (d0 & <- & Hd0).
    exists p, rows, d0. repeat split; auto.
  - left. apply in_flat_map in Hd as (resp & _ & Hd).
    pose proof (keyword_hits_scored resp) as Hsc.
    rewrite List.Forall_forall in Hsc. now apply Hsc.
  - right. apply in_flat_map in Hd as (resp & Hresp' & Hd).
    destruct (Hfrom resp (or_intror Hresp')) as (p & Hp & <-).
    unfold variation_hits in Hd. destruct (error (snd p)); [destruct Hd|].
    destruct (data (snd p)) as [rows|] eqn:Edata; [|destruct Hd].
    apply in_map_iff in Hd as (d0 & <- & Hd0).
    exists p, rows, d0. repeat split; auto.
Qed.

End Floor.

(** X13.  With a store that applies the threshold it is given, the floor of
    0.30 holds from end to end: every hit that a search gathers, and so
    every hit it keeps, has similarity at least 0.30 -- the semantic and the
    variation hits because the store was asked with 0.30, the keyword hits
    because they are given 0.5. *)
Theorem similarity_floor {World : Type} (svc : Services World)
    (st : State World) (query : string) (limit : Z) :
  enforces_threshold svc ->
  match snd (gather svc query limit st) with
  | Returned hits =>
      Forall (fun d => (3 # 10 <= sim d)%Q) hits /\
      Forall (fun d => (3 # 10 <= sim d)%Q) (uniqueResults limit hits)
  | Thrown _ => True
  end.
Proof.
  intros Hstore.
  destruct (gather_calls svc query limit st) as (delta & Htrace & Hcalls).
  destruct (extends_gather svc query limit st) as (delta' & Htrace' & Hanswered).
  rewrite Htrace in Htrace'. apply app_inv_head in Htrace'. subst delta'.
  destruct (snd (gather svc query limit st)) as [hits|e]; [|exact I].
  assert (Hhits : Forall (fun d => (3 # 10 <= sim d)%Q) hits).
  { apply List.Forall_forall. intros d Hd.
    destruct (search_calls_similarities _ _ _ _ Hcalls d Hd)
      as [Hkw|(p & rows & d0 & Hp & Hthr & Hdata & Hd0 & ->)].
    - unfold sim. rewrite Hkw. unfold Qle. simpl. lia.
    - pose proof (match_answers_answered svc _ Hanswered) as Hans.
      rewrite List.Forall_forall in Hans.
      destruct (Hans p Hp) as (emb & count & w & Hw).
      rewrite <- Hw in Hdata. apply Hstore in Hdata.
      rewrite List.Forall_forall in Hdata. rewrite <- Hthr. now apply Hdata. }
  split; [exact Hhits|].
  apply List.Forall_forall. intros d Hd. apply uniqueResults_In in Hd.
  rewrite List.Forall_forall in Hhits. now apply Hhits.
Qed.

Lemma similarity_floor_witness :
  enforces_threshold SampleFloor.floor_store /\
  snd (searchDocuments SampleFloor.floor_store "price" 5 Sample.start)
    = Returned "Open daily" /\
  Forall (fun d => (3 # 10 <= sim d)%Q)
    (uniqueResults 5
       [with_matchType Semantic (row 3 "Open daily" (Some (42 # 100)));
        with_matchType Variation (row 3 "Open daily" (Some (42 # 100)));
        with_matchType Variation (row 3 "Open daily" (Some (42 # 100)))]).
Proof.
  assert (Hstore : enforces_threshold SampleFloor.floor_store).
  { intros emb threshold count w rows. cbn.
    destruct (Qle_bool threshold (42 # 100)) eqn:E; cbn; intros [= <-].
    - apply Qle_bool_iff in E. repeat constructor. exact E.
    - constructor. }
  split; [exact Hstore|]. split; [vm_compute; reflexivity|].
  pose proof (similarity_floor SampleFloor.floor_store Sample.start "price" 5 Hstore)
    as H.
  assert (Hrun : snd (gather SampleFloor.floor_store "price" 5 Sample.start)
                 = Returned
                     [with_matchType Semantic (row 3 "Open daily" (Some (42 # 100)));
                      with_matchType Variation (row 3 "Open daily" (Some (42 # 100)));
                      with_matchType Variation (row 3 "Open daily" (Some (42 # 100)))])
    by (vm_compute; reflexivity).
  rewrite Hrun in H. exact (proj2 H).
Defined.

(** ** Further facts about ingestion *)

Section IngestionShape.

Lemma chunk_calls_shape metadata categoryId chunk delta o :
  chunk_calls metadata categoryId chunk delta o ->
  match_requests delta = [] /\ select_requests delta = [] /\
  (length (insert_requests delta) <= 2)%nat /\
  forall r, In r (insert_requests delta) ->
    exists embedding,
      r = first_attempt metadata categoryId chunk embedding \/
      r = set_category_id None (first_attempt metadata categoryId chunk embedding).
Proof.
  intros [e|embedding|embedding e He|embedding e retry He]; cbn;
    (split; [reflexivity|]); (split; [reflexivity|]); (split; [lia|]).
  - intros r [].
  - intros r [<-|[]]. exists embedding. now left.
  - intros r [<-|[]]. exists embedding. now left.
  - intros r [<-|[<-|[]]]; exists embedding; [now left|now right].
Qed.

Lemma document_calls_shape metadata categoryId chunks delta o :
  document_calls metadata categoryId chunks delta o ->
  match_requests delta = [] /\ select_requests delta = [] /\
  (length (insert_requests delta) <= 2 * length (embed_requests delta))%nat /\
  forall r, In r (insert_requests delta) ->
    exists chunk embedding,
      In chunk chunks /\
      (r = first_attempt metadata categoryId chunk embedding \/
       r = set_category_id None (first_attempt metadata categoryId chunk embedding)).
Proof.
  induction 1 as [|chunk rest tr e Hchunk|chunk rest tr tr' o Hchunk Hrest IH].
  - cbn. split; [reflexivity|]. split; [reflexivity|]. split; [lia|].
    intros r [].
  - pose proof (chunk_calls_facts _ _ _ _ _ Hchunk) as [Hemb _].
    apply chunk_calls_shape in Hchunk as (Hm & Hs & Hlen & Hrows).
    rewrite Hemb. cbn [length].
    split; [exact Hm|]. split; [exact Hs|]. split; [lia|].
    intros r Hr. destruct (Hrows r Hr) as (embedding & Hcase).
    exists chunk, embedding. split; [now left|exact Hcase].
  - pose proof (chunk_calls_facts _ _ _ _ _ Hchunk) as [Hemb _].
    apply chunk_calls_shape in Hchunk as (Hm & Hs & Hlen & Hrows).
    destruct IH as (Hm' & Hs' & Hlen' & Hrows').
    unfold match_requests, select_requests, insert_requests, embed_requests in *.
    rewrite !flat_map_app, !length_app, Hm, Hs, Hm', Hs', Hemb.
    cbn [length app].
    split; [reflexivity|]. split; [reflexivity|]. split; [lia|].
    intros r Hr. apply in_app_or in Hr as [Hr|Hr].
    + destruct (Hrows r Hr) as (embedding & Hcase).
      exists chunk, embedding. split; [now left|exact Hcase].
    + destruct (Hrows' r Hr) as (c & embedding & Hc & Hcase).
      exists c, embedding. split; [now right|exact Hcase].
Qed.



End IngestionShape.

(** X14.  An ingestion only embeds and inserts: it never searches the
    store.  It embeds at most one text per chunk and offers at most two rows
    per embedded chunk, the second one being the retry. *)
Theorem addDocument_call_budget {World : Type} (svc : Services World)
    (st : State World) (content : string) (metadata : Metadata) :
  exists delta,
    trace (fst (addDocument svc content metadata st)) = trace st ++ delta /\
    match_requests delta = [] /\ select_requests delta = [] /\
    (length (embed_requests delta) <= length (createDocuments svc content))%nat /\
    (length (insert_requests delta) <= 2 * length (embed_requests delta))%nat.
Proof.
  rewrite addDocument_run.
  destruct (for_of_calls svc metadata (metadata !! "categoryId")
              (createDocuments svc content) st) as (delta & Htrace & Hcalls).
  exists delta. split.
  { now destruct (for_of (createDocuments svc content)
                    (store_chunk svc metadata (metadata !! "categoryId")) st)
      as [st' [[]|e]]. }
  pose proof (document_calls_facts _ _ _ _ _ Hcalls)
    as (stored & pending & Hsplit & _ & Hemb & _).
  pose proof (document_calls_shape _ _ _ _ _ Hcalls) as (Hm & Hs & Hlen & _).
  repeat split; try assumption.
  rewrite Hemb, Hsplit, length_map, !length_app.
  pose proof (firstn_le_length 1 pending).
  pose proof (length_firstn 1 pending). lia.
Qed.

(** X15.  Every row that an ingestion offers to the store belongs to a
    chunk of the document: it carries that chunk's text, a metadata in
    which the keys of the chunk win over those of the caller and the other
    keys of the caller are kept, and either no category or the caller's
    truthy [categoryId].  With a missing or falsy [categoryId] no row ever
    carries a category. *)
Theorem addDocument_rows {World : Type} (svc : Services World)
    (st : State World) (content : string) (metadata : Metadata) :
  exists delta,
    trace (fst (addDocument svc content metadata st)) = trace st ++ delta /\
    forall r, In r (insert_requests delta) ->
      (exists chunk,
          In chunk (createDocuments svc content) /\
          ins_content r = pageContent chunk /\
          forall k, ins_metadata r !! k =
                    match chunk_metadata chunk !! k with
                    | Some v => Some v
                    | None => metadata !! k
                    end) /\
      (ins_category_id r = None \/
       truthy (metadata !! "categoryId") = true /\
       ins_category_id r = metadata !! "categoryId").
Proof.
  rewrite addDocument_run.
  destruct (for_of_calls svc metadata (metadata !! "categoryId")
              (createDocuments svc content) st) as (delta & Htrace & Hcalls).
  exists delta. split.
  { now destruct (for_of (createDocuments svc content)
                    (store_chunk svc metadata (metadata !! "categoryId")) st)
      as [st' [[]|e]]. }
  pose proof (document_calls_shape _ _ _ _ _ Hcalls) as (_ & _ & _ & Hrows).
  intros r Hr. destruct (Hrows r Hr) as (chunk & embedding & Hchunk & Hcase).
  assert (Hmeta : forall k,
             (chunk_metadata chunk ∪ metadata) !! k =
             match chunk_metadata chunk !! k with
             | Some v => Some v
             | None => metadata !! k
             end).
  { intros k. rewrite lookup_union.
    now destruct (chunk_metadata chunk !! k), (metadata !! k). }
  destruct Hcase as [-> | ->]; cbn.
  - split; [now exists chunk|].
    destruct (truthy (metadata !! "categoryId")); [now right|now left].
  - split; [now exists chunk|now left].
Qed.

Lemma addDocument_rows_witness :
  let r := first_attempt SampleIngestion.tagged_c1 (Some (JStr "c1"))
             SampleIngestion.gcash [] in
  In r (insert_requests
          (trace (fst (addDocument SampleIngestion.old_schema "GCash"
                         SampleIngestion.tagged_c1 Sample.start)))) /\
  (ins_category_id r = None \/
   truthy (SampleIngestion.tagged_c1 !! "categoryId") = true /\
   ins_category_id r = SampleIngestion.tagged_c1 !! "categoryId").
Proof.
  intros r.
  assert (Hin : In r (insert_requests
                        (trace (fst (addDocument SampleIngestion.old_schema "GCash"
                                       SampleIngestion.tagged_c1 Sample.start)))))
    by (vm_compute; tauto).
  split; [exact Hin|].
  destruct (addDocument_rows SampleIngestion.old_schema Sample.start "GCash"
              SampleIngestion.tagged_c1) as (delta & Htrace & Hrows).
  cbn [trace Sample.start app] in Htrace. rewrite Htrace in Hin.
  exact (proj2 (Hrows r Hin)).
Defined.



(** ** Guest sessions *)

Section Guest.

Import GuestSession.

Lemma guest_id_truthy uuid : falsy (Some ("guest_" ++ uuid)%string) = false.
Proof. reflexivity. Qed.

Lemma falsy_false v : falsy v = false -> exists s, v = Some s /\ s <> EmptyString.
Proof.
  destruct v as [s|]; [|discriminate]. cbn. intros H. exists s.
  split; [reflexivity|]. now apply String.eqb_neq.
Qed.

Lemma getItem_setItem key value b : getItem key (setItem key value b) = Some value.
Proof. unfold getItem, setItem. cbn. apply lookup_insert_eq. Qed.

Lemma getItem_setItem_other key key' value b :
  key <> key' -> getItem key' (setItem key value b) = getItem key' b.
Proof. intros H. unfold getItem, setItem. cbn. now apply lookup_insert_ne. Qed.

End Guest.

(** X17.  Asking again for the guest session changes nothing: after one
    [getOrCreateGuestSessionId], a second one returns the same id and leaves
    the storage as it is, whatever [crypto.randomUUID] would return, with or
    without a [window]. *)
Theorem guest_session_stable (uuid uuid' : string) (b : GuestSession.Browser) :
  GuestSession.getOrCreateGuestSessionId uuid'
    (snd (GuestSession.getOrCreateGuestSessionId uuid b))
  = GuestSession.getOrCreateGuestSessionId uuid b.
Proof.
  unfold GuestSession.getOrCreateGuestSessionId.
  destruct (GuestSession.has_window b) eqn:Hw; cbn [negb snd].
  2:{ now rewrite Hw. }
  destruct (GuestSession.falsy (GuestSession.getItem GuestSession.GUEST_SESSION_KEY b))
    eqn:Hf; cbn [snd].
  - cbn [GuestSession.setItem GuestSession.has_window]. rewrite Hw. cbn [negb].
    fold (GuestSession.setItem GuestSession.GUEST_SESSION_KEY
            ("guest_" ++ uuid)%string b).
    rewrite getItem_setItem, guest_id_truthy. reflexivity.
  - now rewrite Hw, Hf.
Qed.

(** X18.  In a browser, [getOrCreateGuestSessionId] returns a non-empty id
    that [getGuestSessionId] then finds, and touches no other key of the
    storage.  When nothing, or the empty string, was stored, the id is
    [guest_] followed by the fresh UUID and [isGuestSession] accepts it;
    a non-empty stored value is returned as it is, storage unchanged. *)
Theorem guest_session_created (uuid : string) (b : GuestSession.Browser) :
  GuestSession.has_window b = true ->
  let id := fst (GuestSession.getOrCreateGuestSessionId uuid b) in
  let b' := snd (GuestSession.getOrCreateGuestSessionId uuid b) in
  GuestSession.getGuestSessionId b' = Some id /\
  id <> EmptyString /\
  (forall key, key <> GuestSession.GUEST_SESSION_KEY ->
     GuestSession.getItem key b' = GuestSession.getItem key b) /\
  (GuestSession.falsy (GuestSession.getItem GuestSession.GUEST_SESSION_KEY b) = true ->
     id = ("guest_" ++ uuid)%string /\ GuestSession.isGuestSession id = true) /\
  (forall s, GuestSession.getItem GuestSession.GUEST_SESSION_KEY b = Some s ->
     s <> EmptyString -> id = s /\ b' = b).
Proof.
  intros Hw. cbn zeta.
  unfold GuestSession.getOrCreateGuestSessionId, GuestSession.getGuestSessionId.
  rewrite Hw. cbn [negb].
  destruct (GuestSession.falsy (GuestSession.getItem GuestSession.GUEST_SESSION_KEY b))
    eqn:Hf; cbn [fst snd].
  - cbn [GuestSession.setItem GuestSession.has_window]. rewrite Hw. cbn [negb].
    fold (GuestSession.setItem GuestSession.GUEST_SESSION_KEY
            ("guest_" ++ uuid)%string b).
    split; [apply getItem_setItem|]. split; [discriminate|].
    split; [intros key Hkey; apply getItem_setItem_other; congruence|].
    split; [now split|].
    intros s Hs Hne. rewrite Hs in Hf. cbn in Hf.
    apply String.eqb_eq in Hf. contradiction.
  - rewrite Hw. cbn [negb].
    destruct (falsy_false _ Hf) as (s & Hs & Hne). rewrite Hs. cbn [default].
    split; [reflexivity|]. split; [exact Hne|].
    split; [reflexivity|]. split; [discriminate|].
    intros s' [= <-] _. now split.
Qed.

Lemma guest_session_created_witness :
  let b := {| GuestSession.has_window := true; GuestSession.localStorage := ∅ |} in
  GuestSession.has_window b = true /\
  GuestSession.getGuestSessionId
    (snd (GuestSession.getOrCreateGuestSessionId "1b4e28ba" b))
  = Some (fst (GuestSession.getOrCreateGuestSessionId "1b4e28ba" b)).
Proof.
  intros b. assert (Hw : GuestSession.has_window b = true) by reflexivity.
  split; [exact Hw|].
  exact (proj1 (guest_session_created "1b4e28ba" b Hw)).
Defined.

(** X19.  In a browser, [clearGuestSession] removes the guest session and
    nothing else: [getGuestSessionId] then returns [null], every other key
    keeps its value, clearing again changes nothing, and the next
    [getOrCreateGuestSessionId] makes a fresh id from a new UUID. *)
Theorem guest_session_cleared (uuid : string) (b : GuestSession.Browser) :
  GuestSession.has_window b = true ->
  let b' := GuestSession.clearGuestSession b in
  GuestSession.getGuestSessionId b' = None /\
  (forall key, key <> GuestSession.GUEST_SESSION_KEY ->
     GuestSession.getItem key b' = GuestSession.getItem key b) /\
  GuestSession.clearGuestSession b' = b' /\
  fst (GuestSession.getOrCreateGuestSessionId uuid b') = ("guest_" ++ uuid)%string.
Proof.
  intros Hw. cbn zeta.
  unfold GuestSession.clearGuestSession, GuestSession.getGuestSessionId,
    GuestSession.getOrCreateGuestSessionId, GuestSession.getItem,
    GuestSession.removeItem.
  rewrite Hw. cbn [GuestSession.has_window GuestSession.localStorage negb].
  rewrite lookup_delete_eq.
  split; [reflexivity|].
  split; [intros key Hkey; apply lookup_delete_ne; congruence|].
  split; [|reflexivity].
  f_equal. apply delete_id. apply lookup_delete_eq.
Qed.

Lemma guest_session_cleared_witness :
  let b := {| GuestSession.has_window := true;
              GuestSession.localStorage :=
                {[ GuestSession.GUEST_SESSION_KEY := "guest_1b4e28ba" ]} |} in
  GuestSession.has_window b = true /\
  GuestSession.getGuestSessionId (GuestSession.clearGuestSession b) = None.
Proof.
  intros b. assert (Hw : GuestSession.has_window b = true) by reflexivity.
  split; [exact Hw|].
  exact (proj1 (guest_session_cleared "" b Hw)).
Defined.

(** X20.  Without a [window] (on the server) the helper does nothing: no id
    is made -- the empty string is returned, which [isGuestSession]
    rejects --, no session is found and clearing leaves everything as it
    is.  And the empty string is the only thing [getOrCreateGuestSessionId]
    ever returns that is empty: with a [window] the id is never empty. *)
Theorem guest_session_without_window (uuid : string) (b : GuestSession.Browser) :
  (GuestSession.has_window b = false ->
     GuestSession.getOrCreateGuestSessionId uuid b = (EmptyString, b) /\
     GuestSession.getGuestSessionId b = None /\
     GuestSession.clearGuestSession b = b) /\
  GuestSession.isGuestSession EmptyString = false /\
  (fst (GuestSession.getOrCreateGuestSessionId uuid b) = EmptyString <->
   GuestSession.has_window b = false).
Proof.
  split; [|split; [reflexivity|]].
  - intros Hw.
    unfold GuestSession.getOrCreateGuestSessionId, GuestSession.getGuestSessionId,
      GuestSession.clearGuestSession. now rewrite Hw.
  - unfold GuestSession.getOrCreateGuestSessionId.
    destruct (GuestSession.has_window b); cbn [negb]; [|now split].
    split; [|discriminate].
    destruct (GuestSession.falsy
                (GuestSession.getItem GuestSession.GUEST_SESSION_KEY b)) eqn:Hf;
      cbn [fst]; [discriminate|].
    destruct (falsy_false _ Hf) as (s & -> & Hne). cbn. contradiction.
Qed.

Lemma guest_session_without_window_witness :
  let b := {| GuestSession.has_window := false; GuestSession.localStorage := ∅ |} in
  GuestSession.has_window b = false /\
  GuestSession.getOrCreateGuestSessionId "1b4e28ba" b = (EmptyString, b).
Proof.
  intros b. assert (Hw : GuestSession.has_window b = false) by reflexivity.
  split; [exact Hw|].
  exact (proj1 (proj1 (guest_session_without_window "1b4e28ba" b) Hw)).
Defined.

(** ** Where the embeddings come from *)

Section Provenance.

Context {World : Type} (svc : Services World).

Lemma variation_calls_provenance vs delta o :
  variation_calls vs delta o ->
  Forall (answered_by svc) delta ->
  forall emb threshold count resp,
    In (EvMatchDocuments emb threshold count resp) delta ->
    exists text w,
      In text vs /\ snd (embed_call svc text Query w) = inl emb.
Proof.
  induction 1 as [|v rest e|v rest embedding resp0 tr o Hcalls IH];
    intros Hans emb threshold count resp Hin.
  - destruct Hin.
  - destruct Hin as [Hin|[]]. discriminate.
  - inversion Hans as [|? ? Hembed Hans']; subst.
    inversion Hans' as [|? ? _ Hans'']; subst.
    destruct Hin as [Hin|[Hin|Hin]]; [discriminate| |].
    + injection Hin as <- _ _ _. destruct Hembed as [w Hw].
      exists v, w. split; [now left|exact Hw].
    + destruct (IH Hans'' _ _ _ _ Hin) as (text & w & Htext & Hw).
      exists text, w. split; [now right|exact Hw].
Qed.

Lemma keyword_calls_no_match query limit kw_trace kw emb threshold count resp :
  keyword_calls query limit kw_trace kw ->
  ~ In (EvMatchDocuments emb threshold count resp) kw_trace.
Proof.
  intros [Hnone|resp' Hsome] Hin; [destruct Hin|].
  destruct Hin as [Hin|[]]. discriminate.
Qed.

Lemma chunk_calls_provenance metadata categoryId chunk delta o :
  chunk_calls metadata categoryId chunk delta o ->
  Forall (answered_by svc) delta ->
  forall r, In r (insert_requests delta) ->
    ins_content r = pageContent chunk /\
    exists w, snd (embed_call svc (pageContent chunk) Passage w) = inl (ins_embedding r).
Proof.
  intros Hcalls Hans r Hr.
  destruct Hcalls as [e|embedding|embedding e He|embedding e retry He];
    cbn in Hr.
  - destruct Hr.
  - inversion Hans as [|? ? Hembed _]; subst. destruct Hembed as [w Hw].
    destruct Hr as [<-|[]]. split; [reflexivity|]. now exists w.
  - inversion Hans as [|? ? Hembed _]; subst. destruct Hembed as [w Hw].
    destruct Hr as [<-|[]]. split; [reflexivity|]. now exists w.
  - inversion Hans as [|? ? Hembed _]; subst. destruct Hembed as [w Hw].
    destruct Hr as [<-|[<-|[]]]; (split; [reflexivity|]); now exists w.
Qed.

Lemma document_calls_provenance metadata categoryId chunks delta o :
  document_calls metadata categoryId chunks delta o ->
  Forall (answered_by svc) delta ->
  forall r, In r (insert_requests delta) ->
    exists chunk w,
      In chunk chunks /\ ins_content r = pageContent chunk /\
      snd (embed_call svc (pageContent chunk) Passage w) = inl (ins_embedding r).
Proof.
  induction 1 as [|chunk rest tr e Hchunk|chunk rest tr tr' o Hchunk Hrest IH];
    intros Hans r Hr.
  - destruct Hr.
  - destruct (chunk_calls_provenance _ _ _ _ _ Hchunk Hans r Hr) as [Hc [w Hw]].
    exists chunk, w. split; [now left|now split].
  - apply Forall_app in Hans as [Hans Hans'].
    unfold insert_requests in Hr. rewrite flat_map_app in Hr.
    apply in_app_or in Hr as [Hr|Hr].
    + destruct (chunk_calls_provenance _ _ _ _ _ Hchunk Hans r Hr) as [Hc [w Hw]].
      exists chunk, w. split; [now left|now split].
    + destruct (IH Hans' r Hr) as (c & w & Hc & Hcontent & Hw).
      exists c, w. split; [now right|now split].
Qed.

End Provenance.

(** X21.  Every nearest-neighbour search of a [searchDocuments] call is
    made with an embedding that the provider returned, in query mode, for
    the query itself or for one of its first two variations: the store is
    never searched with a passage-mode vector or with a vector of the
    code's own making. *)
Theorem search_embedding_provenance {World : Type} (svc : Services World)
    (st : State World) (query : string) (limit : Z) :
  exists delta,
    trace (fst (searchDocuments svc query limit st)) = trace st ++ delta /\
    forall emb threshold count resp,
      In (EvMatchDocuments emb threshold count resp) delta ->
      exists text w,
        (text = query \/ In text (firstn 2 (generateQuestionVariations query))) /\
        snd (embed_call svc text Query w) = inl emb.
Proof.
  rewrite searchDocuments_run.
  destruct (gather_calls svc query limit st) as (delta & Htrace & Hcalls).
  destruct (extends_gather svc query limit st) as (delta' & Htrace' & Hans).
  rewrite Htrace in Htrace'. apply app_inv_head in Htrace'. subst delta'.
  exists delta. split.
  { now destruct (gather svc query limit st) as [st' [hits|e]]. }
  clear Htrace. intros emb threshold count resp Hin.
  inversion Hcalls as [e|emb0 semantic kw_trace kw var_trace o Hkw Hvar Hd Ho];
    subst delta.
  - destruct Hin as [Hin|[]]. discriminate.
  - inversion Hans as [|? ? Hembed Hans']; subst.
    inversion Hans' as [|? ? _ Hans'']; subst.
    apply Forall_app in Hans'' as [_ Hvans].
    destruct Hin as [Hin|[Hin|Hin]]; [discriminate| |].
    + injection Hin as <- _ _ _. destruct Hembed as [w Hw].
      exists query, w. split; [now left|exact Hw].
    + apply in_app_or in Hin as [Hin|Hin].
      * exfalso. exact (keyword_calls_no_match _ _ _ _ _ _ _ _ Hkw Hin).
      * destruct (variation_calls_provenance svc _ _ _ Hvar Hvans _ _ _ _ Hin)
          as (text & w & Htext & Hw).
        exists text, w. split; [now right|exact Hw].
Qed.

(** X22.  Every row that an ingestion offers to the store carries the text
    of a chunk of the document together with the embedding that the
    provider returned for exactly that text in passage mode -- also on the
    retry without the category. *)
Theorem ingestion_embedding_provenance {World : Type} (svc : Services World)
    (st : State World) (content : string) (metadata : Metadata) :
  exists delta,
    trace (fst (addDocument svc content metadata st)) = trace st ++ delta /\
    forall r, In r (insert_requests delta) ->
      exists chunk w,
        In chunk (createDocuments svc content) /\
        ins_content r = pageContent chunk /\
        snd (embed_call svc (pageContent chunk) Passage w) = inl (ins_embedding r).
Proof.
  rewrite addDocument_run.
  set (categoryId := metadata !! "categoryId").
  destruct (for_of_calls svc metadata categoryId (createDocuments svc content) st)
    as (delta & Htrace & Hcalls).
  destruct (extends_for_of svc (createDocuments svc content)
              (store_chunk svc metadata categoryId)
              (extends_store_chunk svc metadata categoryId) st)
    as (delta' & Htrace' & Hans).
  rewrite Htrace in Htrace'. apply app_inv_head in Htrace'. subst delta'.
  exists delta. split.
  { now destruct (for_of (createDocuments svc content)
                    (store_chunk svc metadata categoryId) st) as [st' [[]|e]]. }
  now apply (document_calls_provenance svc metadata categoryId
               (createDocuments svc content) delta _ Hcalls Hans).
Qed.

Lemma search_embedding_provenance_witness :
  exists text w,
    (text = "price" \/ In text (firstn 2 (generateQuestionVariations "price"))) /\
    snd (embed_call SampleFloor.floor_store text Query w) = inl [].
Proof.
  destruct (search_embedding_provenance SampleFloor.floor_store Sample.start
              "price" 5) as (delta & Htrace & Hfrom).
  cbn [trace Sample.start app] in Htrace.
  apply (Hfrom [] (3 # 10)%Q 5%Z
           {| data := Some [row 3 "Open daily" (Some (42 # 100))]; error := None |}).
  rewrite <- Htrace. vm_compute. tauto.
Defined.

Lemma ingestion_embedding_provenance_witness :
  exists chunk w,
    In chunk (createDocuments SampleFloor.accepting "GCash") /\
    ins_content (first_attempt ∅ None SampleIngestion.gcash []) = pageContent chunk /\
    snd (embed_call SampleFloor.accepting (pageContent chunk) Passage w) = inl [].
Proof.
  destruct (ingestion_embedding_provenance SampleFloor.accepting Sample.start
              "GCash" ∅) as (delta & Htrace & Hfrom).
  cbn [trace Sample.start app] in Htrace.
  apply (Hfrom (first_attempt ∅ None SampleIngestion.gcash [])).
  rewrite <- Htrace. vm_compute. tauto.
Defined.

(** ** The workflow test route *)

(** X23.  The test route never throws and asks the engine for at most one
    execution per request.  It asks for it only when the body has a truthy
    [workflowId], [leadId] and [senderId], passes these on as they are and
    always with the publish check skipped.  It answers 200 only after an
    execution that returned, 400 only without having asked for one, and 500
    in every other case. *)
Theorem POST_contract {World : Type} (engine : WorkflowTestRoute.Engine World)
    (json : WorkflowTestRoute.Caught + WorkflowTestRoute.Body)
    (st : World * list WorkflowTestRoute.Execution) :
  let result := WorkflowTestRoute.POST engine json st in
  exists executions,
    snd (fst result) = snd st ++ executions /\
    (length executions <= 1)%nat /\
    (forall ex, In ex executions ->
       WorkflowTestRoute.ex_skipPublishCheck ex = true /\
       WorkflowTestRoute.truthy_field (WorkflowTestRoute.ex_workflowId ex) = true /\
       WorkflowTestRoute.truthy_field (WorkflowTestRoute.ex_leadId ex) = true /\
       WorkflowTestRoute.truthy_field (WorkflowTestRoute.ex_senderId ex) = true /\
       exists properties,
         json = inr (WorkflowTestRoute.JsonValue properties) /\
         WorkflowTestRoute.ex_workflowId ex
           = WorkflowTestRoute.read properties "workflowId" /\
         WorkflowTestRoute.ex_leadId ex = WorkflowTestRoute.read properties "leadId" /\
         WorkflowTestRoute.ex_senderId ex
           = WorkflowTestRoute.read properties "senderId") /\
    (WorkflowTestRoute.status (snd result) = 200%Z ->
       exists ex, executions = [ex] /\
                  snd (WorkflowTestRoute.executeWorkflow engine ex (fst st)) = None) /\
    (WorkflowTestRoute.status (snd result) = 400%Z -> executions = []) /\
    (WorkflowTestRoute.status (snd result) = 200%Z \/
     WorkflowTestRoute.status (snd result) = 400%Z \/
     WorkflowTestRoute.status (snd result) = 500%Z).
Proof.
  cbn zeta. unfold WorkflowTestRoute.POST.
  assert (Hnone : forall resp : WorkflowTestRoute.Response,
            WorkflowTestRoute.status resp = 400%Z \/
            WorkflowTestRoute.status resp = 500%Z ->
            exists executions,
              snd st = snd st ++ executions /\
              (length executions <= 1)%nat /\
              (forall ex, In ex executions ->
                 WorkflowTestRoute.ex_skipPublishCheck ex = true /\
                 WorkflowTestRoute.truthy_field (WorkflowTestRoute.ex_workflowId ex) = true /\
                 WorkflowTestRoute.truthy_field (WorkflowTestRoute.ex_leadId ex) = true /\
                 WorkflowTestRoute.truthy_field (WorkflowTestRoute.ex_senderId ex) = true /\
                 exists properties,
                   json = inr (WorkflowTestRoute.JsonValue properties) /\
                   WorkflowTestRoute.ex_workflowId ex
                     = WorkflowTestRoute.read properties "workflowId" /\
                   WorkflowTestRoute.ex_leadId ex
                     = WorkflowTestRoute.read properties "leadId" /\
                   WorkflowTestRoute.ex_senderId ex
                     = WorkflowTestRoute.read properties "senderId") /\
              (WorkflowTestRoute.status resp = 200%Z ->
                 exists ex, executions = [ex] /\
                   snd (WorkflowTestRoute.executeWorkflow engine ex (fst st)) = None) /\
              (WorkflowTestRoute.status resp = 400%Z -> executions = []) /\
              (WorkflowTestRoute.status resp = 200%Z \/
               WorkflowTestRoute.status resp = 400%Z \/
               WorkflowTestRoute.status resp = 500%Z)).
  { intros resp Hstatus. exists []. rewrite app_nil_r.
    split; [reflexivity|]. split; [cbn; lia|]. split; [intros ex []|].
    split; [intros H200; exfalso; destruct Hstatus; congruence|].
    split; [reflexivity|]. now right. }
  destruct json as [error|[|properties]].
  - apply Hnone. now right.
  - apply Hnone. now right.
  - destruct (WorkflowTestRoute.truthy_field
                (WorkflowTestRoute.read properties "workflowId")) eqn:Hw;
      cbn [negb orb]; [|apply Hnone; now left].
    destruct (WorkflowTestRoute.truthy_field
                (WorkflowTestRoute.read properties "leadId")) eqn:Hl;
      cbn [negb orb]; [|apply Hnone; now left].
    destruct (WorkflowTestRoute.truthy_field
                (WorkflowTestRoute.read properties "senderId")) eqn:Hs;
      cbn [negb orb]; [|apply Hnone; now left].
    clear Hnone.
    set (ex := {| WorkflowTestRoute.ex_workflowId :=
                    WorkflowTestRoute.read properties "workflowId";
                  WorkflowTestRoute.ex_leadId :=
                    WorkflowTestRoute.read properties "leadId";
                  WorkflowTestRoute.ex_senderId :=
                    WorkflowTestRoute.read properties "senderId";
                  WorkflowTestRoute.ex_skipPublishCheck := true |}).
    destruct (WorkflowTestRoute.executeWorkflow engine ex (fst st))
      as [w thrown] eqn:Erun.
    assert (Hex : forall ex', In ex' [ex] ->
              WorkflowTestRoute.ex_skipPublishCheck ex' = true /\
              WorkflowTestRoute.truthy_field (WorkflowTestRoute.ex_workflowId ex') = true /\
              WorkflowTestRoute.truthy_field (WorkflowTestRoute.ex_leadId ex') = true /\
              WorkflowTestRoute.truthy_field (WorkflowTestRoute.ex_senderId ex') = true /\
              exists properties0,
                @inr WorkflowTestRoute.Caught _ (WorkflowTestRoute.JsonValue properties)
                  = inr (WorkflowTestRoute.JsonValue properties0) /\
                WorkflowTestRoute.ex_workflowId ex'
                  = WorkflowTestRoute.read properties0 "workflowId" /\
                WorkflowTestRoute.ex_leadId ex'
                  = WorkflowTestRoute.read properties0 "leadId" /\
                WorkflowTestRoute.ex_senderId ex'
                  = WorkflowTestRoute.read properties0 "senderId").
    { intros ex' [<-|[]]. cbn.
      split; [reflexivity|]. split; [exact Hw|]. split; [exact Hl|].
      split; [exact Hs|]. now exists properties. }
    exists [ex]. destruct thrown as [error|]; cbn [fst snd length].
    + split; [reflexivity|]. split; [lia|]. split; [exact Hex|].
      cbn. split; [discriminate|]. split; [discriminate|]. now right; right.
    + split; [reflexivity|]. split; [lia|]. split; [exact Hex|].
      cbn. split; [|split; [discriminate|now left]].
      intros _. exists ex. split; [reflexivity|]. now rewrite Erun.
Qed.

Lemma POST_contract_witness :
  WorkflowTestRoute.status
    (snd (WorkflowTestRoute.POST WorkflowTestRoute.obliging
            (inr WorkflowTestRoute.complete_body) (tt, []))) = 200%Z /\
  exists ex,
    snd (fst (WorkflowTestRoute.POST WorkflowTestRoute.obliging
                (inr WorkflowTestRoute.complete_body) (tt, []))) = [ex].
Proof.
  assert (H : WorkflowTestRoute.status
                (snd (WorkflowTestRoute.POST WorkflowTestRoute.obliging
                        (inr WorkflowTestRoute.complete_body) (tt, []))) = 200%Z)
    by (vm_compute; reflexivity).
  split; [exact H|].
  destruct (POST_contract WorkflowTestRoute.obliging
              (inr WorkflowTestRoute.complete_body) (tt, []))
    as (executions & Htrace & _ & _ & H200 & _).
  destruct (H200 H) as (ex & Hex & _). exists ex.
  rewrite Htrace, Hex. reflexivity.
Defined.
